(** * fsalloc: memory allocation on file system

    A shallow embedding of the paging engine of fsalloc (fsalloc.h,
    fsalloc.cc, cpu_traits.h, db_wrapper.cc) and the proofs of its
    specification.

    Pointers are addresses in [Z], read modulo [2^64]; [uint32_t] values are
    read modulo [2^32]; the statistics counters are [unsigned long long] and
    wrap at [2^64].  The global variables of fsalloc.cc form the record
    [State].  Every call that leaves the program (system calls, BerkeleyDB
    methods, the previously installed signal handler) is answered by an
    environment [Env], which sees the whole history of earlier calls, and is
    recorded in the [trace] of the state. *)

From Stdlib Require Import ZArith List Bool String Lia.
From stdpp Require Import base option list gmap.

#[local] Open Scope Z_scope.

(** ** Machine integers *)

Definition to_uint32 (x : Z) : Z := x mod 2 ^ 32.
Definition to_uint64 (x : Z) : Z := x mod 2 ^ 64.
(** conversion to [int] (two's complement, 32 bits) *)
Definition to_int32 (x : Z) : Z := (x + 2 ^ 31) mod 2 ^ 32 - 2 ^ 31.
(** [reinterpret_cast<intptr_t>] of a 64-bit pointer *)
Definition to_intptr (x : Z) : Z := (x + 2 ^ 63) mod 2 ^ 64 - 2 ^ 63.

(** number of trailing zero bits of a positive number *)
Fixpoint pos_ctz (p : positive) : Z :=
  match p with
  | xO q => 1 + pos_ctz q
  | _ => 0
  end.

(** [ffs(3)]: one plus the index of the least significant set bit of an
    [int], 0 when no bit is set *)
Definition ffs (i : Z) : Z :=
  match to_uint32 i with
  | Zpos p => pos_ctz p + 1
  | _ => 0
  end.

(** ** Constants of the system headers (Linux, x86-64) *)

Definition PROT_NONE : Z := 0.
Definition PROT_READ : Z := 1.
Definition PROT_WRITE : Z := 2.
Definition MAP_PRIVATE : Z := 2.
Definition MAP_ANONYMOUS : Z := 32.
Definition MAP_FAILED : Z := 2 ^ 64 - 1.
Definition MADV_DONTNEED : Z := 4.
Definition SIGSEGV : Z := 11.
Definition SA_SIGINFO : Z := 4.
Definition DB_NOTFOUND : Z := -30988.
Definition DB_NOSYNC : Z := 21.
(** index of the error code in [gregs] *)
Definition REG_ERR : nat := 19.

(** ** cpu_traits.h *)

Record stack_t := { ss_sp : Z; ss_flags : Z; ss_size : Z }.

Record mcontext_t := { gregs : list Z; fpregs : Z; mc_reserved : list Z }.

Record ucontext_t := {
  uc_flags : Z;
  uc_link : Z;
  uc_stack : stack_t;
  uc_mcontext : mcontext_t;
  uc_sigmask : list Z
}.

Module x86_64.

Definition get_mprotect_flags (ctx : ucontext_t) : Z :=
  if negb (Z.land (nth REG_ERR (gregs (uc_mcontext ctx)) 0) 2 =? 0)
  then Z.lor PROT_READ PROT_WRITE
  else PROT_READ.

End x86_64.

Definition get_mprotect_flags (ctx : ucontext_t) : Z :=
  x86_64.get_mprotect_flags ctx.

(** ** fsalloc.h: alignment *)

Section Alignment.

(** [kPagesize = getpagesize()] *)
Variable kPagesize : Z.

Definition pageshift : Z := ffs kPagesize - 1.

(** Aligns address to pagesize granularity *)
Definition pagealign (ptr : Z) : Z :=
  to_uint64 (Z.shiftl (Z.shiftr (to_intptr ptr) pageshift) pageshift).

(** Aligns size to be a multiple of pagesize; the arithmetic is done in
    [unsigned int] *)
Definition sizealign (size : Z) : Z :=
  to_uint32
    (to_uint32 (to_uint32 (to_uint32 size + to_uint32 kPagesize) - 1)
       / to_uint32 kPagesize
     * to_uint32 kPagesize).

End Alignment.

(** ** db_wrapper.h, fsalloc.h: data *)

(** [DB_HEAP_RID] of BerkeleyDB: a 32-bit page number and a 16-bit index *)
Record handle_t := { pgno : Z; indx : Z }.

(** Represents information on single allocation *)
Record Info := {
  rid : handle_t;   (* key for BerkeleyDB heap database entry *)
  size : Z;         (* size of allocated region *)
  dirty : bool;     (* true iff region is dirty *)
  cached : bool     (* true iff region is cached in RAM *)
}.

(** numeric_limits max of both fields *)
Definition invalid_handle : handle_t :=
  {| pgno := 2 ^ 32 - 1; indx := 2 ^ 16 - 1 |}.

Definition emptyInfo (s : Z) : Info :=
  {| rid := invalid_handle; size := s; dirty := false; cached := true |}.

Definition valid (info : Info) : bool :=
  negb (pgno (rid info) =? pgno invalid_handle)
  || negb (indx (rid info) =? indx invalid_handle).

(** the value-initialised [Info] that [operator[]] of the map creates *)
Definition zeroInfo : Info :=
  {| rid := {| pgno := 0; indx := 0 |}; size := 0; dirty := false; cached := false |}.

Definition set_rid (r : handle_t) (i : Info) : Info :=
  {| rid := r; size := size i; dirty := dirty i; cached := cached i |}.
Definition set_dirty (b : bool) (i : Info) : Info :=
  {| rid := rid i; size := size i; dirty := b; cached := cached i |}.
Definition set_cached (b : bool) (i : Info) : Info :=
  {| rid := rid i; size := size i; dirty := dirty i; cached := b |}.

(** Represents global fsalloc statistics *)
Record Stats := {
  allocs : Z;
  frees : Z;
  cache_hits : Z;
  writebacks : Z
}.

Definition zeroStats : Stats :=
  {| allocs := 0; frees := 0; cache_hits := 0; writebacks := 0 |}.

Definition kDefaultCapacity : Z := 0x100000.
Definition kGigabyte : Z := 1024 * 1024 * 1024.

(** ** The environment *)

(** The calls that leave the program. *)
Inductive Call :=
| Sigaction (signum flags : Z)
| Mmap (len prot flags : Z)
| Munmap (addr len : Z)
| Mprotect (addr len prot : Z)
| Madvise (addr len advice : Z)
| Memcpy (dst src n : Z)
| PrevHandler (sig : Z)
| DbCreate
| DbSetPagesize (pagesize : Z)
| DbSetCachesize (gbytes bytes ncache : Z)
| DbOpen (path : string)
| DbClose (flags : Z)
| DbGet (key : handle_t)
| DbPutAppend (data len : Z)
| DbCursor
| DbcGet (key : handle_t)
| DbcPut (data len : Z)
| DbcClose
| DbDel (key : handle_t).

(** A call together with the integer it returned. *)
Definition Event : Type := Call * Z.

(** The kernel, the database library and the handler that was installed
    before: each answer may depend on all earlier calls. *)
Record Env := {
  getpagesize : Z;
  (** the value a call returns: an error code, or the address for [Mmap] *)
  answer : list Event -> Call -> Z;
  (** the record id that a [DB_APPEND] put writes into the key *)
  append_rid : list Event -> handle_t;
  (** [data.data] after [DB->get] *)
  get_data : list Event -> Z;
  (** whether the previously installed handler returns to its caller *)
  prev_returns : list Event -> Z -> bool
}.

(** ** fsalloc.cc: the global state *)

Record State := {
  gAllocations : gmap Z Info;      (* map of allocated regions *)
  gRegionCache : list Z;           (* queue of regions cached in RAM *)
  gRegionCacheCapacity : Z;        (* max capacity of region cache *)
  gStats : Stats;                  (* usage statistics *)
  trace : list Event               (* the calls made so far, oldest first *)
}.

(** the state of the globals when the program starts *)
Definition boot : State :=
  {| gAllocations := ∅; gRegionCache := []; gRegionCacheCapacity := 0;
     gStats := zeroStats; trace := [] |}.

Definition set_gAllocations (m : gmap Z Info) (s : State) : State :=
  {| gAllocations := m; gRegionCache := gRegionCache s;
     gRegionCacheCapacity := gRegionCacheCapacity s; gStats := gStats s;
     trace := trace s |}.
Definition set_gRegionCache (q : list Z) (s : State) : State :=
  {| gAllocations := gAllocations s; gRegionCache := q;
     gRegionCacheCapacity := gRegionCacheCapacity s; gStats := gStats s;
     trace := trace s |}.
Definition set_gRegionCacheCapacity (c : Z) (s : State) : State :=
  {| gAllocations := gAllocations s; gRegionCache := gRegionCache s;
     gRegionCacheCapacity := c; gStats := gStats s; trace := trace s |}.
Definition set_gStats (st : Stats) (s : State) : State :=
  {| gAllocations := gAllocations s; gRegionCache := gRegionCache s;
     gRegionCacheCapacity := gRegionCacheCapacity s; gStats := st;
     trace := trace s |}.
Definition set_trace (t : list Event) (s : State) : State :=
  {| gAllocations := gAllocations s; gRegionCache := gRegionCache s;
     gRegionCacheCapacity := gRegionCacheCapacity s; gStats := gStats s;
     trace := t |}.

(** ** Computations: state, C++ exceptions, process termination *)

Inductive Outcome (A : Type) :=
| Ret (a : A)              (* the function returned *)
| Throw (what : string)    (* a [std::runtime_error] left the function *)
| Abort.                   (* the process was terminated *)
Arguments Ret {A} a.
Arguments Throw {A} what.
Arguments Abort {A}.

Definition M (A : Type) : Type := State -> Outcome A * State.

Definition ret {A} (a : A) : M A := fun s => (Ret a, s).

Definition bind {A B} (m : M A) (k : A -> M B) : M B :=
  fun s =>
    match m s with
    | (Ret a, s') => k a s'
    | (Throw w, s') => (Throw w, s')
    | (Abort, s') => (Abort, s')
    end.

Declare Scope fs_scope.
Delimit Scope fs_scope with fs.
Notation "x <- m ; k" := (bind m (fun x => k))
  (at level 100, m at next level, k at level 200, right associativity) : fs_scope.
Notation "m ;; k" := (bind m (fun _ => k))
  (at level 100, k at level 200, right associativity) : fs_scope.
#[local] Open Scope fs_scope.

Definition get_state : M State := fun s => (Ret s, s).
Definition modify (f : State -> State) : M unit := fun s => (Ret tt, f s).
Definition throw {A} (what : string) : M A := fun s => (Throw what, s).
Definition abort {A} : M A := fun s => (Abort, s).
Definition when (b : bool) (m : M unit) : M unit := if b then m else ret tt.
(** [assert] of <cassert>, compiled in (no [NDEBUG]): a failed assertion
    terminates the process *)
Definition assert (b : bool) : M unit := if b then ret tt else abort.

(** performs a call: the environment answers, the trace records it *)
Definition call (env : Env) (c : Call) : M Z :=
  fun s =>
    let r := answer env (trace s) c in
    (Ret r, set_trace (trace s ++ [(c, r)]) s).

(** ** db_wrapper.cc *)

Module db.
Section Wrapper.

Variable env : Env.

Definition init (path : string) (pagesize cachesize ncache : Z) : M unit :=
  err <- call env DbCreate;
  when (negb (err =? 0)) (throw "Could not create database");;
  err <- call env (DbSetPagesize pagesize);
  when (negb (err =? 0)) (throw "Could not set pagesize for database");;
  err <- call env (DbSetCachesize (cachesize / kGigabyte) (cachesize mod kGigabyte) ncache);
  when (negb (err =? 0)) (throw "Could not set cachesize for database");;
  err <- call env (DbOpen path);
  when (negb (err =? 0)) (throw "Could not open database").

Definition term : M unit :=
  call env (DbClose DB_NOSYNC);; ret tt.

(** [char *get(handle_t rid)] *)
Definition get (rid : handle_t) : M Z :=
  s <- get_state;
  let data := get_data env (trace s) in
  err <- call env (DbGet rid);
  when (negb (err =? 0)) (throw "Getting from database failed");;
  ret data.

(** [handle_t put(void *element, uint32_t size)]: appends a record *)
Definition put (element size : Z) : M handle_t :=
  s <- get_state;
  let rid := append_rid env (trace s) in
  err <- call env (DbPutAppend element size);
  when (negb (err =? 0)) (throw "Putting to database failed");;
  ret rid.

(** [void put(void *element, uint32_t size, handle_t rid)]: overwrites the
    record of [rid] through a cursor *)
Definition put_rid (element size : Z) (rid : handle_t) : M unit :=
  err <- call env DbCursor;
  when (negb (err =? 0)) (throw "Creating cursor for database failed");;
  err <- call env (DbcGet rid);
  when (negb (err =? 0)) (throw "Getting cursor from database failed");;
  err <- call env (DbcPut element size);
  when (negb (err =? 0)) (throw "Commiting changes to database entry failed");;
  call env DbcClose;; ret tt.

Definition del (rid : handle_t) : M unit :=
  err <- call env (DbDel rid);
  when (negb (err =? 0) && negb (err =? DB_NOTFOUND))
    (throw "Getting from database failed").

End Wrapper.
End db.

(** ** fsalloc.cc *)

Section Engine.

Variable env : Env.

(** [static const int kPagesize = getpagesize()] *)
Definition kPagesize : Z := getpagesize env.

(** *** fsalloc.cc: access to the globals *)

(** [gAllocations.find(addr)] *)
Definition allocated (addr : Z) : M (option Info) :=
  s <- get_state; ret (gAllocations s !! addr).

(** [gAllocations[addr]]: creates a value-initialised entry when there is
    none *)
Definition index (addr : Z) : M unit :=
  modify (fun s =>
    match gAllocations s !! addr with
    | Some _ => s
    | None => set_gAllocations (<[addr := zeroInfo]> (gAllocations s)) s
    end).

(** reads through the reference [info] to the entry of [addr] *)
Definition deref (addr : Z) : M Info :=
  s <- get_state; ret (default zeroInfo (gAllocations s !! addr)).

(** writes through the reference [info] to the entry of [addr] *)
Definition update (addr : Z) (f : Info -> Info) : M unit :=
  modify (fun s => set_gAllocations (alter f addr (gAllocations s)) s).

Definition erase (addr : Z) : M unit :=
  modify (fun s => set_gAllocations (delete addr (gAllocations s)) s).

Definition push_back (addr : Z) : M unit :=
  modify (fun s => set_gRegionCache (gRegionCache s ++ [addr]) s).

Definition pop_front : M unit :=
  modify (fun s => set_gRegionCache (tail (gRegionCache s)) s).

Definition incr_allocs (st : Stats) : Stats :=
  {| allocs := to_uint64 (allocs st + 1); frees := frees st;
     cache_hits := cache_hits st; writebacks := writebacks st |}.
Definition incr_frees (st : Stats) : Stats :=
  {| allocs := allocs st; frees := to_uint64 (frees st + 1);
     cache_hits := cache_hits st; writebacks := writebacks st |}.
Definition incr_cache_hits (st : Stats) : Stats :=
  {| allocs := allocs st; frees := frees st;
     cache_hits := to_uint64 (cache_hits st + 1); writebacks := writebacks st |}.
Definition incr_writebacks (st : Stats) : Stats :=
  {| allocs := allocs st; frees := frees st;
     cache_hits := cache_hits st; writebacks := to_uint64 (writebacks st + 1) |}.

Definition count (f : Stats -> Stats) : M unit :=
  modify (fun s => set_gStats (f (gStats s)) s).

(** [default_sigsegv.sa_handler(sig)] *)
Definition default_sigsegv (sig : Z) : M unit :=
  s <- get_state;
  if prev_returns env (trace s) sig
  then call env (PrevHandler sig);; ret tt
  else call env (PrevHandler sig);; abort.

(** *** fsalloc.cc: the paging engine *)

(** Verifies if requested address is within allocated region *)
Definition verify (region addr size : Z) : bool :=
  let dist := to_int32 (addr - region) in
  (0 <=? dist) && (to_uint32 dist <=? size).

(** Performs mprotect() call, protecting a page from reading/writing *)
Definition protect (region size flags : Z) : M unit :=
  err <- call env (Mprotect region (sizealign kPagesize size) flags);
  when (negb (err =? 0)) (throw "mprotect failed").

(** Performs a madvise(MADV_DONTNEED) call, effectively removing page from RAM *)
Definition forget (region size : Z) : M unit :=
  err <- call env (Madvise region (sizealign kPagesize size) MADV_DONTNEED);
  when (negb (err =? 0)) (throw "madvise failed");;
  protect region size PROT_NONE.

Definition writeback : M unit :=
  s <- get_state;
  assert (0 <? Z.of_nat (length (gRegionCache s)));;
  (* Remove page from cache *)
  let addr := hd 0 (gRegionCache s) in
  index addr;;
  pop_front;;
  update addr (set_cached false);;
  info <- deref addr;
  if negb (dirty info) then
    forget addr (size info);;
    count incr_cache_hits
  else
    (* Unprotect page in order to read its data *)
    protect addr (size info) PROT_READ;;
    (* Write page to db *)
    (if valid info then
       db.put_rid env addr (size info) (rid info)
     else
       r <- db.put env addr (size info);
       update addr (set_rid r));;
    update addr (set_dirty false);;
    forget addr (size info);;
    count incr_writebacks.

(** Inserts region to cache, performing a writeback if limit is reached *)
Definition cacheRegion (addr : Z) : M unit :=
  push_back addr;;
  s <- get_state;
  when (Z.of_nat (length (gRegionCache s)) >? gRegionCacheCapacity s) writeback.

Definition fsalloc (size : Z) : M Z :=
  let size := to_uint32 size in
  addr <- call env (Mmap size PROT_NONE (Z.lor MAP_ANONYMOUS MAP_PRIVATE));
  when (addr =? MAP_FAILED) (throw "fsalloc: mmap failed");;
  modify (fun s => set_gAllocations (<[addr := emptyInfo size]> (gAllocations s)) s);;
  cacheRegion addr;;
  count incr_allocs;;
  ret addr.

Definition fsfree (addr : Z) : M unit :=
  it <- allocated addr;
  match it with
  | Some info =>
      db.del env (rid info);;
      r <- call env (Munmap addr (sizealign kPagesize (size info)));
      when (r <? 0) (throw "fsalloc: munmap failed");;
      erase addr
  | None => ret tt
  end;;
  count incr_frees.

(** the handler from "Filling with contents from db" on *)
Definition handler_fill (region mprotect_flags : Z) : M unit :=
  info <- deref region;
  (* Filling with contents from db (or extracting a never-used-page) *)
  when (valid info)
    ((* Page needs to be read and written to be filled with data *)
     protect region (size info) (Z.lor PROT_READ PROT_WRITE);;
     tmp <- db.get env (rid info);
     call env (Memcpy region tmp (size info));; ret tt);;
  update region (set_cached true);;
  cacheRegion region;;
  (* Region is now protected according to its access type *)
  protect region (size info) mprotect_flags.

(** SIGSEGV signal handler; [si_addr] is the faulting address *)
Definition handler (sig si_addr : Z) (ctx : ucontext_t) : M unit :=
  let region := pagealign kPagesize si_addr in
  it <- allocated region;
  match it with
  | Some info =>
      when (negb (verify region si_addr (size info))) (default_sigsegv sig);;
      let mprotect_flags := get_mprotect_flags ctx in
      if negb (Z.land mprotect_flags PROT_WRITE =? 0) then
        update region (set_dirty true);;
        if cached info then
          protect region (size info) mprotect_flags
        else handler_fill region mprotect_flags
      else handler_fill region mprotect_flags
  | None => default_sigsegv sig
  end.

Definition init (path : string) (capacity : Z) : M unit :=
  r <- call env (Sigaction SIGSEGV SA_SIGINFO);
  when (r =? -1) (throw "fsalloc: sigaction failed");;
  modify (set_gRegionCacheCapacity (to_uint32 capacity));;
  modify (set_gStats zeroStats);;
  db.init env path kPagesize 1024 1.

Definition term : M unit := db.term env.

Definition stats : M Stats := s <- get_state; ret (gStats s).

End Engine.

(** ** Assumptions on the environment *)

(** the page size is a power of two that fits an [int] *)
Definition is_pagesize (p : Z) : Prop := exists k, 0 <= k <= 30 /\ p = 2 ^ k.

Definition is_mmap (c : Call) : bool :=
  match c with Mmap _ _ _ => true | _ => false end.

(** every call other than [mmap] succeeds: it returns 0 *)
Definition reliable (env : Env) : Prop :=
  forall tr c, is_mmap c = false -> answer env tr c = 0.

(** ** Runs and their invariants *)

(** the operations of the mutator and of the kernel on its behalf *)
Inductive Op :=
| Allocate (size : Z)
| Free (addr : Z)
| Fault (sig va : Z) (ctx : ucontext_t)
| Writeback.

Definition exec (env : Env) (op : Op) : M unit :=
  match op with
  | Allocate size => fsalloc env size;; ret tt
  | Free addr => fsfree env addr
  | Fault sig va ctx => handler env sig va ctx
  | Writeback => writeback env
  end.

(** the state after a sequence of operations; an operation that throws
    leaves its state to the next one *)
Fixpoint run (env : Env) (ops : list Op) (s : State) : State :=
  match ops with
  | [] => s
  | op :: ops' => run env ops' (snd (exec env op s))
  end.

(** [m] relates every state to the state it leaves, whatever the outcome *)
Definition stable (R : State -> State -> Prop) {A} (m : M A) : Prop :=
  forall s, R s (snd (m s)).

Definition same_queue (s s' : State) : Prop :=
  gRegionCache s' = gRegionCache s /\
  gRegionCacheCapacity s' = gRegionCacheCapacity s.

Definition within_capacity (s : State) : Prop :=
  Z.of_nat (length (gRegionCache s)) <= gRegionCacheCapacity s.

Definition keeps_capacity (s s' : State) : Prop :=
  gRegionCacheCapacity s' = gRegionCacheCapacity s /\
  (within_capacity s -> within_capacity s').

Definition is_map_call (c : Call) : bool :=
  match c with Mmap _ _ _ | Munmap _ _ => true | _ => false end.

(** the effect of one eviction of the queue's head [addr] *)
Definition evicted (addr : Z) (s s' : State) : Prop :=
  gRegionCache s' = tail (gRegionCache s) /\
  gRegionCacheCapacity s' = gRegionCacheCapacity s /\
  allocs (gStats s') = allocs (gStats s) /\
  frees (gStats s') = frees (gStats s) /\
  (cache_hits (gStats s') = to_uint64 (cache_hits (gStats s) + 1) /\
   writebacks (gStats s') = writebacks (gStats s)
   \/
   writebacks (gStats s') = to_uint64 (writebacks (gStats s) + 1) /\
   cache_hits (gStats s') = cache_hits (gStats s)) /\
  (forall b, b <> addr -> gAllocations s' !! b = gAllocations s !! b) /\
  exists evs, trace s' = trace s ++ evs /\
              Forall (fun e => is_map_call (fst e) = false) evs.

(** the state in the middle of [fsalloc]: entry inserted, base queued *)
Definition admitted (size addr : Z) (s : State) : State :=
  {| gAllocations := <[addr := emptyInfo size]> (gAllocations s);
     gRegionCache := gRegionCache s ++ [addr];
     gRegionCacheCapacity := gRegionCacheCapacity s;
     gStats := gStats s;
     trace := trace s ++
       [(Mmap size PROT_NONE (Z.lor MAP_ANONYMOUS MAP_PRIVATE), addr)] |}.

(** ** Allocations each followed by a write *)

(** one allocation and the write that follows it: the size requested, the
    offset of the byte written, the context of the write fault *)
Record AllocWrite := {
  aw_size : Z;
  aw_offset : Z;
  aw_ctx : ucontext_t
}.

Fixpoint alloc_write_loop (env : Env) (ws : list AllocWrite) : M unit :=
  match ws with
  | [] => ret tt
  | w :: ws' =>
      addr <- fsalloc env (aw_size w);
      handler env SIGSEGV (addr + aw_offset w) (aw_ctx w);;
      alloc_write_loop env ws'
  end.

(** the program [init(path, capacity)] followed by the allocations and
    writes, run from the start of the process *)
Definition scenario (env : Env) (path : string) (capacity : Z)
  (ws : list AllocWrite) : Outcome unit * State :=
  (init env path capacity;; alloc_write_loop env ws) boot.

(** the write is a write, and it goes to the part of the region that the
    handler serves: the handler looks up the page of the faulting address,
    and only the first page of a region is a key of the table *)
Definition served_write (pagesize : Z) (w : AllocWrite) : Prop :=
  0 < aw_size w < 2 ^ 32 /\
  0 <= aw_offset w < aw_size w /\
  aw_offset w < pagesize /\
  Z.testbit (nth REG_ERR (gregs (uc_mcontext (aw_ctx w))) 0) 1 = true.

(** the addresses that successful [mmap] calls have returned *)
Definition mmapped (tr : list Event) : list Z :=
  flat_map
    (fun e =>
       match fst e with
       | Mmap _ _ _ => if snd e =? MAP_FAILED then [] else [snd e]
       | _ => []
       end) tr.

(** what the kernel promises of a successful [mmap]: a page-aligned range
    inside the address space, whose base it has not handed out before
    unless that base was unmapped since *)
Definition mmap_fresh (env : Env) : Prop :=
  forall tr len prot flags,
    let a := answer env tr (Mmap len prot flags) in
    a <> MAP_FAILED ->
    0 <= a /\ a + len <= 2 ^ 64 /\ a mod getpagesize env = 0 /\
    (In a (mmapped tr) -> exists l r, In (Munmap a l, r) tr).

Definition no_munmap (tr : list Event) : Prop :=
  forall a l r, ~ In (Munmap a l, r) tr.

(** no recorded [mmap] has failed *)
Definition is_mmap_failure (e : Event) : bool :=
  is_mmap (fst e) && (snd e =? MAP_FAILED).

Definition no_mmap_failure (tr : list Event) : Prop :=
  existsb is_mmap_failure tr = false.

(** the state after [k] allocations, each followed by its write *)
Record after_allocs (C k : Z) (s : State) : Prop := {
  aa_capacity : gRegionCacheCapacity s = C;
  aa_queue : Z.of_nat (length (gRegionCache s)) = Z.min k C;
  aa_hits : 0 <= cache_hits (gStats s);
  aa_writebacks : 0 <= writebacks (gStats s);
  aa_evictions : writebacks (gStats s) + cache_hits (gStats s) = Z.max 0 (k - C);
  aa_queued : forall a, In a (gRegionCache s) -> In a (mmapped (trace s));
  aa_nodup : List.NoDup (mmapped (trace s));
  aa_range : forall a, In a (mmapped (trace s)) -> 0 <= a < 2 ^ 64;
  aa_count : Z.of_nat (length (mmapped (trace s))) = k;
  aa_mapped : no_munmap (trace s)
}.

(** ** Sample data *)

(** the highest address that the recorded calls have touched *)
Definition top (tr : list Event) : Z :=
  fold_right
    (fun e m =>
       match fst e with
       | Mmap len _ _ => Z.max (Z.max (snd e) (snd e + len)) m
       | _ => Z.max (snd e) m
       end) 0 tr.

(** An environment with 4 KiB pages in which every call succeeds while
    there is address space; each [mmap] of a length between 1 and [2^32]
    returns the next multiple of 64 KiB above everything mapped before. *)
Definition env0 : Env :=
  {| getpagesize := 4096;
     answer := fun tr c =>
       match c with
       | Mmap len _ _ =>
           let a := (top tr / 65536 + 1) * 65536 in
           if (0 <? len) && (len <=? 2 ^ 32) && (a <? 2 ^ 47)
           then a else MAP_FAILED
       | _ => 0
       end;
     append_rid := fun tr => {| pgno := 1 + Z.of_nat (length tr); indx := 0 |};
     get_data := fun _ => 4096;
     prev_returns := fun _ _ => true |}.

(** a fault context with the given error code *)
Definition ctx_err (err : Z) : ucontext_t :=
  {| uc_flags := 0; uc_link := 0;
     uc_stack := {| ss_sp := 0; ss_flags := 0; ss_size := 0 |};
     uc_mcontext :=
       {| gregs := repeat 0 19 ++ [err; 14; 0; 0]; fpregs := 0;
          mc_reserved := repeat 0 8 |};
     uc_sigmask := repeat 0 16 |}.

(** a dirty region that was never stored, alone in the queue *)
Definition info_dirty : Info :=
  {| rid := invalid_handle; size := 4; dirty := true; cached := true |}.

Definition st_dirty : State :=
  {| gAllocations := {[ 65536 := info_dirty ]};
     gRegionCache := [65536];
     gRegionCacheCapacity := 1;
     gStats := {| allocs := 1; frees := 0; cache_hits := 0; writebacks := 0 |};
     trace := [] |}.

(** the globals after [init] with the given capacity *)
Definition fresh (capacity : Z) : State :=
  set_gRegionCacheCapacity capacity boot.

(** the state after [a = fsalloc(4); fsfree(a)] in [env0] with capacity 4:
    the freed address is still queued *)
Definition st_stale : State :=
  {| gAllocations := ∅;
     gRegionCache := [65536];
     gRegionCacheCapacity := 4;
     gStats := {| allocs := 1; frees := 1; cache_hits := 0; writebacks := 0 |};
     trace := [(Mmap 4 PROT_NONE (Z.lor MAP_ANONYMOUS MAP_PRIVATE), 65536);
               (DbDel invalid_handle, 0);
               (Munmap 65536 4096, 0)] |}.

(** the state after [fsalloc(4)] in [env0] with capacity 4 *)
Definition st_one : State :=
  {| gAllocations := {[ 65536 := emptyInfo 4 ]};
     gRegionCache := [65536];
     gRegionCacheCapacity := 4;
     gStats := {| allocs := 1; frees := 0; cache_hits := 0; writebacks := 0 |};
     trace := [(Mmap 4 PROT_NONE (Z.lor MAP_ANONYMOUS MAP_PRIVATE), 65536)] |}.

(** [st_one] with the queue full: capacity 1 *)
Definition st_full : State := set_gRegionCacheCapacity 1 st_one.

(** five allocations of an [int], each written at once *)
Definition five_ints : list AllocWrite :=
  repeat {| aw_size := 4; aw_offset := 0; aw_ctx := ctx_err 7 |} 5.

(** the calls that load a region from the store before it is admitted;
    none for a region without a key *)
Definition load_calls (env : Env) (tr : list Event) (region : Z) (info : Info)
  : list Event :=
  let len := sizealign (kPagesize env) (size info) in
  if valid info then
    [(Mprotect region len (Z.lor PROT_READ PROT_WRITE), 0);
     (DbGet (rid info), 0);
     (Memcpy region
        (get_data env (tr ++ [(Mprotect region len (Z.lor PROT_READ PROT_WRITE), 0)]))
        (size info), 0)]
  else [].

(** [st_one] after its region was evicted dirty under the key (2, 0) *)
Definition st_evicted : State :=
  {| gAllocations :=
       {[ 65536 := {| rid := {| pgno := 2; indx := 0 |}; size := 4;
                      dirty := false; cached := false |} ]};
     gRegionCache := [];
     gRegionCacheCapacity := 4;
     gStats := {| allocs := 1; frees := 0; cache_hits := 0; writebacks := 1 |};
     trace := [] |}.

(** an environment whose store accepts nothing: [DB_APPEND] and the
    cursor's put answer 28 (no space left), every other call succeeds *)
Definition env_full : Env :=
  {| getpagesize := 4096;
     answer := fun tr c =>
       match c with
       | DbPutAppend _ _ | DbcPut _ _ => 28
       | _ => answer env0 tr c
       end;
     append_rid := append_rid env0;
     get_data := get_data env0;
     prev_returns := prev_returns env0 |}.


(** a resident region with the key (2, 0), written again since it was
    stored *)
Definition st_rewritten : State :=
  {| gAllocations :=
       {[ 65536 := {| rid := {| pgno := 2; indx := 0 |}; size := 4;
                      dirty := true; cached := true |} ]};
     gRegionCache := [65536];
     gRegionCacheCapacity := 1;
     gStats := zeroStats;
     trace := [] |}.

(** ** What paging and freeing leave alone *)

Definition same_accounting (s s' : State) : Prop :=
  allocs (gStats s') = allocs (gStats s) /\
  frees (gStats s') = frees (gStats s) /\
  gRegionCacheCapacity s' = gRegionCacheCapacity s.

(** every entry is still there, with its size *)
Definition keeps_entries (s s' : State) : Prop :=
  forall a i, gAllocations s !! a = Some i ->
    exists i', gAllocations s' !! a = Some i' /\ size i' = size i.

(** all that [fsfree] may change is the table, [frees] and the trace *)
Definition free_frame (s s' : State) : Prop :=
  gRegionCache s' = gRegionCache s /\
  gRegionCacheCapacity s' = gRegionCacheCapacity s /\
  allocs (gStats s') = allocs (gStats s) /\
  cache_hits (gStats s') = cache_hits (gStats s) /\
  writebacks (gStats s') = writebacks (gStats s).

(** [env0] with a kernel that refuses to install the handler *)
Definition env_nosig : Env :=
  {| getpagesize := 4096;
     answer := fun tr c =>
       match c with
       | Sigaction _ _ => -1
       | _ => answer env0 tr c
       end;
     append_rid := append_rid env0;
     get_data := get_data env0;
     prev_returns := prev_returns env0 |}.

(** [env0] with a store that cannot read: [DB->get] answers 5 *)
Definition env_noget : Env :=
  {| getpagesize := 4096;
     answer := fun tr c =>
       match c with
       | DbGet _ => 5
       | _ => answer env0 tr c
       end;
     append_rid := append_rid env0;
     get_data := get_data env0;
     prev_returns := prev_returns env0 |}.

(** *** fsalloc.h: [struct managed]

    A function declared [noexcept] that lets an exception escape ends the
    process through [std::terminate]. *)
Definition noexcept {A : Type} (m : M A) : M A :=
  fun s =>
    match m s with
    | (Throw _, s') => (Abort, s')
    | r => r
    end.

Module managed.

(** [void *operator new(std::size_t size)]: the 64-bit size is narrowed to
    the [uint32_t] parameter of [fsalloc] *)
Definition operator_new (env : Env) (size : Z) : M Z :=
  fsalloc env (to_uint32 size).

(** [void operator delete(void *obj) noexcept] *)
Definition operator_delete (env : Env) (obj : Z) : M unit :=
  noexcept (fsfree env obj).

End managed.

(** [env0] with a store that cannot delete: [DB->del] answers 5 *)
Definition env_nodel : Env :=
  {| getpagesize := 4096;
     answer := fun tr c =>
       match c with
       | DbDel _ => 5
       | _ => answer env0 tr c
       end;
     append_rid := append_rid env0;
     get_data := get_data env0;
     prev_returns := prev_returns env0 |}.

(** * Proofs *)

(** ** The model at work *)

Example ffs_4096 : ffs 4096 = 13.
Proof. reflexivity. Qed.

Example pagealign_4096 :
  map (pagealign 4096) [0; 4095; 4096; 12345; 2 ^ 64 - 1] = [0; 0; 4096; 12288; 2 ^ 64 - 4096].
Proof. reflexivity. Qed.

Example sizealign_4096 :
  map (sizealign 4096) [0; 1; 4096; 4097; 2 ^ 32 - 1] = [0; 4096; 4096; 8192; 0].
Proof. reflexivity. Qed.

(** [verify] accepts the first byte behind the region *)
Example verify_inclusive :
  map (fun addr => verify 65536 addr 4) [65536; 65539; 65540; 65541]
  = [true; true; true; false].
Proof. reflexivity. Qed.

Example decode_read_write :
  map (fun e => get_mprotect_flags (ctx_err e)) [4; 5; 6; 7] = [1; 1; 3; 3].
Proof. reflexivity. Qed.

(** ** Alignment *)

Lemma pow2_pos_ctz (k : Z) :
  0 <= k -> exists p, 2 ^ k = Zpos p /\ pos_ctz p = k.
Proof.
  revert k. apply natlike_ind.
  - exists 1%positive. split; reflexivity.
  - intros k Hk [p [Hp Hc]]. exists (xO p). split.
    + rewrite Z.pow_succ_r by assumption. rewrite Hp. reflexivity.
    + simpl. lia.
Qed.

Lemma to_uint32_small (x : Z) : 0 <= x < 2 ^ 32 -> to_uint32 x = x.
Proof. intros H. unfold to_uint32. apply Z.mod_small. exact H. Qed.

Lemma to_uint64_small (x : Z) : 0 <= x < 2 ^ 64 -> to_uint64 x = x.
Proof. intros H. unfold to_uint64. apply Z.mod_small. exact H. Qed.

Lemma pow2_le_30 (k : Z) : 0 <= k <= 30 -> 0 < 2 ^ k <= 2 ^ 30.
Proof.
  intros H. split.
  - apply Z.pow_pos_nonneg; lia.
  - apply Z.pow_le_mono_r; lia.
Qed.

Lemma ffs_pow2 (k : Z) : 0 <= k <= 30 -> ffs (2 ^ k) = k + 1.
Proof.
  intros H. unfold ffs.
  pose proof (pow2_le_30 k H) as Hb.
  rewrite to_uint32_small by lia.
  destruct (pow2_pos_ctz k) as [p [Hp Hc]]; [lia |].
  rewrite Hp. lia.
Qed.

Lemma pageshift_pow2 (k : Z) : 0 <= k <= 30 -> pageshift (2 ^ k) = k.
Proof. intros H. unfold pageshift. rewrite ffs_pow2 by assumption. lia. Qed.

(** [pagealign] clears the low bits of the address *)
Lemma pagealign_mod (P a : Z) :
  is_pagesize P -> 0 <= a < 2 ^ 64 -> pagealign P a = a - a mod P.
Proof.
  intros [k [Hk ->]] Ha. unfold pagealign.
  rewrite pageshift_pow2 by assumption.
  rewrite Z.shiftr_div_pow2, Z.shiftl_mul_pow2 by lia.
  pose proof (pow2_le_30 k Hk) as HP.
  assert (Hsplit : 2 ^ 64 = 2 ^ k * 2 ^ (64 - k)).
  { rewrite <- Z.pow_add_r by lia. f_equal. lia. }
  set (P := 2 ^ k) in *. set (Q := 2 ^ (64 - k)) in *.
  assert (HQ : 0 < Q) by (apply Z.pow_pos_nonneg; lia).
  pose proof (Z.div_mod a P ltac:(lia)) as Hdm.
  pose proof (Z.mod_pos_bound a P ltac:(lia)) as Hmb.
  assert (Hq : 0 <= a / P < Q).
  { split; [apply Z.div_pos; lia |]. apply Z.div_lt_upper_bound; lia. }
  unfold to_intptr, to_uint64.
  assert (Hs : ((a + 2 ^ 63) mod 2 ^ 64 - 2 ^ 63) / P * P
               = a / P * P \/
               ((a + 2 ^ 63) mod 2 ^ 64 - 2 ^ 63) / P * P
               = a / P * P - 2 ^ 64).
  { destruct (Z_lt_le_dec a (2 ^ 63)) as [Hlt | Hge].
    - left. rewrite Z.mod_small by lia. f_equal. f_equal. lia.
    - right.
      replace ((a + 2 ^ 63) mod 2 ^ 64) with (a - 2 ^ 63).
      2:{ apply Z.mod_unique with (q := 1); lia. }
      replace (a - 2 ^ 63 - 2 ^ 63) with (a + (- Q) * P) by lia.
      rewrite Z.div_add by lia. lia. }
  destruct Hs as [-> | ->].
  - rewrite Z.mod_small by nia. lia.
  - replace (a / P * P - 2 ^ 64) with (a / P * P + (-1) * 2 ^ 64) by lia.
    rewrite Z.mod_add by lia. rewrite Z.mod_small by nia. lia.
Qed.

(** without overflow [sizealign] is the rounding-up division *)
Lemma sizealign_div (P size : Z) :
  is_pagesize P -> 0 <= size -> size + P - 1 < 2 ^ 32 ->
  sizealign P size = (size + P - 1) / P * P.
Proof.
  intros [k [Hk ->]] H0 Hov. unfold sizealign.
  pose proof (pow2_le_30 k Hk) as HP.
  set (P := 2 ^ k) in *.
  rewrite (to_uint32_small size) by lia.
  rewrite (to_uint32_small P) by lia.
  unfold to_uint32 at 2 3. rewrite Zminus_mod_idemp_l.
  rewrite (Z.mod_small (size + P - 1)) by lia.
  apply to_uint32_small.
  pose proof (Z.mul_div_le (size + P - 1) P ltac:(lia)).
  assert (0 <= (size + P - 1) / P) by (apply Z.div_pos; lia).
  nia.
Qed.

Lemma multiple_eq (P m : Z) : 0 < P -> m mod P = 0 -> m = P * (m / P).
Proof. intros HP Hm. pose proof (Z.div_mod m P ltac:(lia)). lia. Qed.

Lemma is_pagesize_bounds (P : Z) : is_pagesize P -> 0 < P <= 2 ^ 30.
Proof. intros [k [Hk ->]]. apply pow2_le_30. exact Hk. Qed.

Lemma is_pagesize_divides_32 (P : Z) : is_pagesize P -> 2 ^ 32 mod P = 0.
Proof.
  intros [k [Hk ->]].
  replace (2 ^ 32) with (2 ^ (32 - k) * 2 ^ k).
  - apply Z.mod_mul. pose proof (pow2_le_30 k Hk). lia.
  - rewrite <- Z.pow_add_r by lia. f_equal. lia.
Qed.

(** C10: while [size + pagesize - 1] fits in 32 bits, [sizealign size] is the
    least multiple of the page size that is at least [size], and [sizealign]
    is idempotent; for an address [a], [pagealign a] is the greatest multiple
    of the page size that is at most [a], [pagealign] is idempotent and
    [0 <= a - pagealign a < pagesize]. *)
Theorem align_least_greatest (P : Z) (HP : is_pagesize P) :
  (forall size, 0 <= size -> size + P - 1 < 2 ^ 32 ->
     sizealign P size mod P = 0 /\
     size <= sizealign P size /\
     (forall m, m mod P = 0 -> size <= m -> sizealign P size <= m) /\
     sizealign P (sizealign P size) = sizealign P size) /\
  (forall a, 0 <= a < 2 ^ 64 ->
     pagealign P a mod P = 0 /\
     pagealign P a <= a /\
     (forall m, m mod P = 0 -> m <= a -> m <= pagealign P a) /\
     pagealign P (pagealign P a) = pagealign P a /\
     0 <= a - pagealign P a < P).
Proof.
  pose proof (is_pagesize_bounds P HP) as Hb.
  split.
  - intros size H0 Hov.
    rewrite (sizealign_div P size HP H0 Hov).
    set (r := (size + P - 1) / P * P).
    assert (Hmod : r mod P = 0) by (apply Z.mod_mul; lia).
    assert (Hge : size <= r).
    { pose proof (Z.div_mod (size + P - 1) P ltac:(lia)).
      pose proof (Z.mod_pos_bound (size + P - 1) P ltac:(lia)). subst r. lia. }
    assert (Hle : r <= size + P - 1).
    { pose proof (Z.mul_div_le (size + P - 1) P ltac:(lia)). subst r. lia. }
    assert (Hmin : forall m, m mod P = 0 -> size <= m -> r <= m).
    { intros m Hm Hsm. pose proof (multiple_eq P m ltac:(lia) Hm) as Em.
      assert ((size + P - 1) / P < m / P + 1).
      { apply Z.div_lt_upper_bound; lia. }
      subst r. nia. }
    repeat split; try assumption.
    (* idempotence: r is a multiple, and r + P - 1 still fits *)
    assert (Hfit : r + P - 1 < 2 ^ 32).
    { pose proof (is_pagesize_divides_32 P HP) as H32.
      pose proof (multiple_eq P r ltac:(lia) Hmod) as Er.
      pose proof (multiple_eq P (2 ^ 32) ltac:(lia) H32) as E32.
      assert (r / P < 2 ^ 32 / P) by nia. nia. }
    rewrite (sizealign_div P r HP ltac:(lia) Hfit).
    pose proof (multiple_eq P r ltac:(lia) Hmod) as Er.
    replace (r + P - 1) with ((P - 1) + r / P * P) by lia.
    rewrite Z.div_add by lia. rewrite Z.div_small by lia. lia.
  - intros a Ha.
    rewrite (pagealign_mod P a HP Ha).
    pose proof (Z.div_mod a P ltac:(lia)) as Hdm.
    pose proof (Z.mod_pos_bound a P ltac:(lia)) as Hmb.
    assert (Hlow : a mod P <= a) by (apply Z.mod_le; lia).
    assert (Hmul : (a - a mod P) mod P = 0).
    { replace (a - a mod P) with (a / P * P) by lia. apply Z.mod_mul. lia. }
    split; [exact Hmul |]. split; [lia |]. split; [| split; [| lia]].
    + intros m Hm Hma. pose proof (multiple_eq P m ltac:(lia) Hm) as Em.
      assert (m / P <= a / P) by (apply Z.div_le_lower_bound; lia).
      assert (P * (m / P) <= P * (a / P)) by (apply Z.mul_le_mono_nonneg_l; lia).
      lia.
    + assert (Hr : 0 <= a - a mod P < 2 ^ 64) by lia.
      rewrite (pagealign_mod P (a - a mod P) HP Hr). rewrite Hmul. lia.
Qed.

Lemma align_least_greatest_witness :
  sizealign 4096 (sizealign 4096 5000) = sizealign 4096 5000 /\
  0 <= 12345 - pagealign 4096 12345 < 4096.
Proof.
  assert (HP : is_pagesize 4096) by (exists 12; split; [lia | reflexivity]).
  destruct (align_least_greatest 4096 HP) as [Hs Hp].
  split.
  - apply (Hs 5000); [lia | reflexivity].
  - apply (Hp 12345). split; [lia | reflexivity].
Defined.

(** ** The fault-context decoder *)

Lemma land_2_testbit (e : Z) : (Z.land e 2 =? 0) = negb (Z.testbit e 1).
Proof.
  destruct (Z.testbit e 1) eqn:Hb; simpl.
  - apply Z.eqb_neq. intros H0.
    assert (H : Z.testbit (Z.land e 2) 1 = true).
    { rewrite Z.land_spec, Hb. reflexivity. }
    rewrite H0 in H. rewrite Z.bits_0 in H. discriminate.
  - apply Z.eqb_eq. apply Z.bits_inj'. intros n Hn.
    rewrite Z.land_spec, Z.bits_0.
    destruct (Z.eq_dec n 1) as [-> | Hne].
    + rewrite Hb. reflexivity.
    + change 2 with (2 ^ 1). rewrite (Z.pow2_bits_false 1 n) by lia.
      apply andb_false_r.
Qed.

Lemma get_mprotect_flags_bit (ctx : ucontext_t) :
  get_mprotect_flags ctx
  = (if Z.testbit (nth REG_ERR (gregs (uc_mcontext ctx)) 0) 1
     then Z.lor PROT_READ PROT_WRITE else PROT_READ).
Proof.
  unfold get_mprotect_flags, x86_64.get_mprotect_flags.
  rewrite land_2_testbit, negb_involutive. reflexivity.
Qed.

(** C9: the decoder answers READ and WRITE exactly when bit 1 of the error
    code is set and READ otherwise; two contexts with the same error code
    are decoded alike, whatever their other fields hold. *)
Theorem decoder_write_bit (ctx ctx' : ucontext_t)
  (Herr : nth REG_ERR (gregs (uc_mcontext ctx')) 0
          = nth REG_ERR (gregs (uc_mcontext ctx)) 0) :
  get_mprotect_flags ctx
  = (if Z.testbit (nth REG_ERR (gregs (uc_mcontext ctx)) 0) 1
     then Z.lor PROT_READ PROT_WRITE else PROT_READ) /\
  get_mprotect_flags ctx' = get_mprotect_flags ctx.
Proof.
  split.
  - apply get_mprotect_flags_bit.
  - rewrite !get_mprotect_flags_bit, Herr. reflexivity.
Qed.

Lemma decoder_write_bit_witness :
  get_mprotect_flags (ctx_err 6) = Z.lor PROT_READ PROT_WRITE /\
  get_mprotect_flags
    {| uc_flags := 1; uc_link := 8; uc_stack := uc_stack (ctx_err 6);
       uc_mcontext := uc_mcontext (ctx_err 6); uc_sigmask := [] |}
  = get_mprotect_flags (ctx_err 6).
Proof.
  apply (decoder_write_bit (ctx_err 6)). reflexivity.
Defined.

(** ** The primitives in a reliable environment *)

Arguments call : simpl never.
Arguments protect : simpl never.
Arguments forget : simpl never.
Arguments db.get : simpl never.
Arguments db.put : simpl never.
Arguments db.put_rid : simpl never.
Arguments db.del : simpl never.
Arguments default_sigsegv : simpl never.
Arguments writeback : simpl never.
Arguments cacheRegion : simpl never.
Arguments handler_fill : simpl never.
Arguments sizealign : simpl never.
Arguments pagealign : simpl never.

Lemma alter_lookup_insert (f : Info -> Info) (k : Z) (v : Info) (m : gmap Z Info) :
  m !! k = Some v -> alter f k m = <[k := f v]> m.
Proof.
  intros H. apply map_eq. intros i.
  rewrite lookup_alter, lookup_insert.
  destruct (decide (k = i)) as [-> | Hne]; [rewrite H; reflexivity | reflexivity].
Qed.

Lemma alter_insert_same (f : Info -> Info) (k : Z) (v : Info) (m : gmap Z Info) :
  alter f k (<[k := v]> m) = <[k := f v]> m.
Proof.
  rewrite (alter_lookup_insert f k v) by apply lookup_insert_eq.
  apply insert_insert_eq.
Qed.

Section Reliable.

Variable env : Env.
Hypothesis Hrel : reliable env.

Lemma call_ok (c : Call) (s : State) :
  is_mmap c = false ->
  call env c s = (Ret 0, set_trace (trace s ++ [(c, 0)]) s).
Proof. intros H. unfold call. rewrite (Hrel _ _ H). reflexivity. Qed.

Lemma protect_ok (region size flags : Z) (s : State) :
  protect env region size flags s
  = (Ret tt,
     set_trace (trace s ++ [(Mprotect region (sizealign (kPagesize env) size) flags, 0)]) s).
Proof. unfold protect, bind. rewrite call_ok by reflexivity. reflexivity. Qed.

Lemma forget_ok (region size : Z) (s : State) :
  forget env region size s
  = (Ret tt,
     set_trace (trace s ++
       [(Madvise region (sizealign (kPagesize env) size) MADV_DONTNEED, 0);
        (Mprotect region (sizealign (kPagesize env) size) PROT_NONE, 0)]) s).
Proof.
  unfold forget, bind. rewrite call_ok by reflexivity. cbn.
  rewrite protect_ok. unfold set_trace. cbn. rewrite <- app_assoc. reflexivity.
Qed.

Lemma db_put_ok (element size : Z) (s : State) :
  db.put env element size s
  = (Ret (append_rid env (trace s)),
     set_trace (trace s ++ [(DbPutAppend element size, 0)]) s).
Proof. unfold db.put, bind, get_state. rewrite call_ok by reflexivity. reflexivity. Qed.

Lemma db_put_rid_ok (element size : Z) (rid : handle_t) (s : State) :
  db.put_rid env element size rid s
  = (Ret tt,
     set_trace (trace s ++
       [(DbCursor, 0); (DbcGet rid, 0); (DbcPut element size, 0); (DbcClose, 0)]) s).
Proof.
  unfold db.put_rid, bind.
  repeat (rewrite call_ok by reflexivity; cbn).
  unfold ret, set_trace. cbn. repeat rewrite <- app_assoc. reflexivity.
Qed.

Lemma db_get_ok (rid : handle_t) (s : State) :
  db.get env rid s
  = (Ret (get_data env (trace s)), set_trace (trace s ++ [(DbGet rid, 0)]) s).
Proof. unfold db.get, bind, get_state. rewrite call_ok by reflexivity. reflexivity. Qed.

Lemma db_del_ok (rid : handle_t) (s : State) :
  db.del env rid s = (Ret tt, set_trace (trace s ++ [(DbDel rid, 0)]) s).
Proof. unfold db.del, bind. rewrite call_ok by reflexivity. reflexivity. Qed.

End Reliable.

(** ** Write-back *)

Lemma writeback_head_present (env : Env) (s : State) (addr : Z)
  (q : list Z) (info : Info)
  (Hrel : reliable env)
  (Hq : gRegionCache s = addr :: q)
  (Hin : gAllocations s !! addr = Some info) :
  let len := sizealign (kPagesize env) (size info) in
  let discard :=
    [(Madvise addr len MADV_DONTNEED, 0); (Mprotect addr len PROT_NONE, 0)] in
  writeback env s =
  (Ret tt,
   if negb (dirty info) then
     {| gAllocations := <[addr := set_cached false info]> (gAllocations s);
        gRegionCache := q;
        gRegionCacheCapacity := gRegionCacheCapacity s;
        gStats := incr_cache_hits (gStats s);
        trace := trace s ++ discard |}
   else if valid info then
     {| gAllocations :=
          <[addr := {| rid := rid info; size := size info;
                       dirty := false; cached := false |}]> (gAllocations s);
        gRegionCache := q;
        gRegionCacheCapacity := gRegionCacheCapacity s;
        gStats := incr_writebacks (gStats s);
        trace := trace s ++
          [(Mprotect addr len PROT_READ, 0); (DbCursor, 0);
           (DbcGet (rid info), 0); (DbcPut addr (size info), 0);
           (DbcClose, 0)] ++ discard |}
   else
     {| gAllocations :=
          <[addr := {| rid := append_rid env
                               (trace s ++ [(Mprotect addr len PROT_READ, 0)]);
                       size := size info;
                       dirty := false; cached := false |}]> (gAllocations s);
        gRegionCache := q;
        gRegionCacheCapacity := gRegionCacheCapacity s;
        gStats := incr_writebacks (gStats s);
        trace := trace s ++
          [(Mprotect addr len PROT_READ, 0);
           (DbPutAppend addr (size info), 0)] ++ discard |}).
Proof.
  intros len discard.
  destruct s as [tbl queue cap st tr]. cbn in Hq, Hin. subst queue.
  assert (Hpos : (0 <? Z.of_nat (length (addr :: q))) = true).
  { apply Z.ltb_lt. cbn [length]. lia. }
  unfold writeback, bind, get_state, index, pop_front, update, deref, modify, count, ret.
  cbn. cbn in Hpos. rewrite Hpos. cbn. rewrite Hin. cbn. 
  rewrite (alter_lookup_insert _ _ _ _ Hin), lookup_insert_eq. cbn.
  change (valid (set_cached false info)) with (valid info).
  unfold set_trace, set_gAllocations, set_gRegionCache, set_gStats. cbn.
  destruct (dirty info) eqn:Hd; cbn.
  - rewrite protect_ok by assumption.
    destruct (valid info) eqn:Hv; cbn.
    + rewrite db_put_rid_ok by assumption. cbn.
      rewrite forget_ok by assumption. cbn. 
      rewrite alter_insert_same. repeat rewrite <- app_assoc. reflexivity.
    + rewrite db_put_ok by assumption. cbn.
      rewrite forget_ok by assumption. cbn. 
      rewrite !alter_insert_same. repeat rewrite <- app_assoc. reflexivity.
  - rewrite forget_ok by assumption. cbn. repeat rewrite <- app_assoc. reflexivity.
Qed.


Lemma env0_reliable : reliable env0.
Proof. intros tr c H. destruct c; try reflexivity. discriminate H. Qed.


(** write-back of a queued address that has no entry: [operator[]] creates
    one, and the eviction is charged as a clean one *)
Lemma writeback_head_missing (env : Env) (s : State) (addr : Z) (q : list Z)
  (Hrel : reliable env)
  (Hq : gRegionCache s = addr :: q)
  (Hin : gAllocations s !! addr = None) :
  let len := sizealign (kPagesize env) 0 in
  writeback env s =
  (Ret tt,
   {| gAllocations := <[addr := zeroInfo]> (gAllocations s);
      gRegionCache := q;
      gRegionCacheCapacity := gRegionCacheCapacity s;
      gStats := incr_cache_hits (gStats s);
      trace := trace s ++
        [(Madvise addr len MADV_DONTNEED, 0); (Mprotect addr len PROT_NONE, 0)] |}).
Proof.
  intros len.
  destruct s as [tbl queue cap st tr]. cbn in Hq, Hin. subst queue.
  assert (Hpos : (0 <? Z.of_nat (length (addr :: q))) = true).
  { apply Z.ltb_lt. cbn [length]. lia. }
  unfold writeback, bind, get_state, index, pop_front, update, deref, modify, count, ret.
  cbn. cbn in Hpos. rewrite Hpos. cbn. rewrite Hin. cbn.
  rewrite alter_insert_same, lookup_insert_eq. cbn.
  rewrite forget_ok by assumption. reflexivity.
Qed.

Lemma st_stale_reached :
  (a <- fsalloc env0 4; fsfree env0 a) (fresh 4) = (Ret tt, st_stale).
Proof. vm_compute. reflexivity. Qed.

(** C1 (the code does otherwise): in [st_stale] the head of the queue is a
    freed address without an entry.  Write-back pops it, but it also creates
    an entry for it in the table, calls [madvise] and [mprotect] on it and
    counts a cache hit. *)
Theorem writeback_stale_head_charged :
  gAllocations st_stale !! 65536 = None /\
  writeback env0 st_stale =
  (Ret tt,
   {| gAllocations := {[ 65536 := zeroInfo ]};
      gRegionCache := [];
      gRegionCacheCapacity := 4;
      gStats := {| allocs := 1; frees := 1; cache_hits := 1; writebacks := 0 |};
      trace := trace st_stale ++
        [(Madvise 65536 0 MADV_DONTNEED, 0); (Mprotect 65536 0 PROT_NONE, 0)] |}).
Proof.
  split; [reflexivity |].
  apply (writeback_head_missing env0 st_stale 65536 [] env0_reliable eq_refl eq_refl).
Qed.

(** ** Free *)

(** C3 (as amended): freeing an address that has no entry returns, makes no
    call at all (so the store and the mappings stay as they are), leaves the
    table, the queue and the capacity unchanged, and adds one to [frees],
    the other counters staying as they are. *)
Theorem fsfree_unknown (env : Env) (s : State) (addr : Z)
  (Hin : gAllocations s !! addr = None) :
  fsfree env addr s =
  (Ret tt,
   {| gAllocations := gAllocations s;
      gRegionCache := gRegionCache s;
      gRegionCacheCapacity := gRegionCacheCapacity s;
      gStats := {| allocs := allocs (gStats s);
                   frees := to_uint64 (frees (gStats s) + 1);
                   cache_hits := cache_hits (gStats s);
                   writebacks := writebacks (gStats s) |};
      trace := trace s |}).
Proof.
  unfold fsfree, bind, allocated, get_state, ret, count, modify. cbn.
  rewrite Hin. reflexivity.
Qed.

Lemma fsfree_unknown_witness :
  fsfree env0 12345 st_stale =
  (Ret tt,
   {| gAllocations := ∅;
      gRegionCache := [65536];
      gRegionCacheCapacity := 4;
      gStats := {| allocs := 1; frees := 2; cache_hits := 0; writebacks := 0 |};
      trace := trace st_stale |}).
Proof.
  apply (fsfree_unknown env0 st_stale 12345). reflexivity.
Defined.

(** C3 (as stated) fails: [frees] changes although the address is unknown. *)
Lemma fsfree_unknown_changes_frees :
  gAllocations st_stale !! 12345 = None /\
  frees (gStats (snd (fsfree env0 12345 st_stale))) <> frees (gStats st_stale).
Proof.
  split; [reflexivity |]. vm_compute. discriminate.
Qed.

(** ** The fault handler *)

Lemma pagealign_bounds (P a : Z) :
  is_pagesize P -> 0 <= a < 2 ^ 64 ->
  0 <= a - pagealign P a < P /\ 0 <= pagealign P a.
Proof.
  intros HP Ha. rewrite (pagealign_mod P a HP Ha).
  pose proof (is_pagesize_bounds P HP) as Hb.
  pose proof (Z.mod_pos_bound a P ltac:(lia)).
  pose proof (Z.mod_le a P ltac:(lia) ltac:(lia)). lia.
Qed.

(** inside the page of [region], [verify] compares the offset with the size *)
Lemma verify_offset (region addr size : Z) :
  0 <= addr - region < 2 ^ 31 ->
  verify region addr size = (addr - region <=? size).
Proof.
  intros H. unfold verify, to_int32.
  replace ((addr - region + 2 ^ 31) mod 2 ^ 32) with (addr - region + 2 ^ 31)
    by (symmetry; apply Z.mod_small; lia).
  replace (addr - region + 2 ^ 31 - 2 ^ 31) with (addr - region) by lia.
  rewrite to_uint32_small by lia.
  destruct (0 <=? addr - region) eqn:E; [reflexivity | apply Z.leb_gt in E; lia].
Qed.

Lemma st_one_reached : fsalloc env0 4 (fresh 4) = (Ret 65536, st_one).
Proof. vm_compute. reflexivity. Qed.

(** the write fault on a resident region *)
Lemma handler_write_resident (env : Env) (s : State) (sig va : Z)
  (ctx : ucontext_t) (info : Info)
  (Hrel : reliable env)
  (HP : is_pagesize (kPagesize env))
  (Hva : 0 <= va < 2 ^ 64)
  (Hin : gAllocations s !! pagealign (kPagesize env) va = Some info)
  (Hreg : va - pagealign (kPagesize env) va <= size info)
  (Hcached : cached info = true)
  (Hw : Z.testbit (nth REG_ERR (gregs (uc_mcontext ctx)) 0) 1 = true) :
  let region := pagealign (kPagesize env) va in
  handler env sig va ctx s =
  (Ret tt,
   {| gAllocations := <[region := set_dirty true info]> (gAllocations s);
      gRegionCache := gRegionCache s;
      gRegionCacheCapacity := gRegionCacheCapacity s;
      gStats := gStats s;
      trace := trace s ++
        [(Mprotect region (sizealign (kPagesize env) (size info))
            (Z.lor PROT_READ PROT_WRITE), 0)] |}).
Proof.
  intros region.
  destruct (pagealign_bounds _ _ HP Hva) as [Hoff _].
  pose proof (is_pagesize_bounds _ HP) as Hb.
  destruct s as [tbl queue cap st tr]. cbn in Hin.
  unfold handler, bind, allocated, get_state, ret, update, modify. cbn.
  fold region in Hin, Hoff, Hreg |- *. rewrite Hin.
  rewrite verify_offset by lia.
  replace (va - region <=? size info) with true by (symmetry; apply Z.leb_le; lia).
  rewrite get_mprotect_flags_bit, Hw.
  change (negb (Z.land (Z.lor PROT_READ PROT_WRITE) PROT_WRITE =? 0)) with true.
  cbn. rewrite Hcached. rewrite protect_ok by assumption. cbn.
  rewrite (alter_lookup_insert _ _ _ _ Hin). reflexivity.
Qed.

(** a fault further behind the region than its size is chained first; if
    the chained handler does not return, nothing but the trace has changed *)
Lemma handler_chain_no_return (env : Env) (s : State) (sig va : Z)
  (ctx : ucontext_t) (info : Info)
  (HP : is_pagesize (kPagesize env))
  (Hva : 0 <= va < 2 ^ 64)
  (Hin : gAllocations s !! pagealign (kPagesize env) va = Some info)
  (Hout : size info < va - pagealign (kPagesize env) va)
  (Hprev : prev_returns env (trace s) sig = false) :
  handler env sig va ctx s =
  (Abort,
   set_trace (trace s ++ [(PrevHandler sig, answer env (trace s) (PrevHandler sig))]) s).
Proof.
  destruct (pagealign_bounds _ _ HP Hva) as [Hoff _].
  pose proof (is_pagesize_bounds _ HP) as Hb.
  unfold handler, bind, allocated, get_state, ret. cbn.
  rewrite Hin. rewrite verify_offset by lia.
  replace (va - pagealign (kPagesize env) va <=? size info) with false
    by (symmetry; apply Z.leb_gt; lia).
  cbn. unfold default_sigsegv, bind, get_state. rewrite Hprev. reflexivity.
Qed.

(** if the chained handler returns, the handler goes on as if the fault
    were inside the region *)
Lemma handler_chain_falls_through (env : Env) (s : State) (sig va : Z)
  (ctx : ucontext_t) (info : Info)
  (Hrel : reliable env)
  (HP : is_pagesize (kPagesize env))
  (Hva : 0 <= va < 2 ^ 64)
  (Hin : gAllocations s !! pagealign (kPagesize env) va = Some info)
  (Hout : size info < va - pagealign (kPagesize env) va)
  (Hprev : prev_returns env (trace s) sig = true)
  (Hcached : cached info = true)
  (Hw : Z.testbit (nth REG_ERR (gregs (uc_mcontext ctx)) 0) 1 = true) :
  let region := pagealign (kPagesize env) va in
  handler env sig va ctx s =
  (Ret tt,
   {| gAllocations := <[region := set_dirty true info]> (gAllocations s);
      gRegionCache := gRegionCache s;
      gRegionCacheCapacity := gRegionCacheCapacity s;
      gStats := gStats s;
      trace := trace s ++
        [(PrevHandler sig, 0);
         (Mprotect region (sizealign (kPagesize env) (size info))
            (Z.lor PROT_READ PROT_WRITE), 0)] |}).
Proof.
  intros region.
  destruct (pagealign_bounds _ _ HP Hva) as [Hoff _].
  pose proof (is_pagesize_bounds _ HP) as Hb.
  destruct s as [tbl queue cap st tr]. cbn in Hin, Hprev.
  unfold handler, bind, allocated, get_state, ret, update, modify. cbn.
  fold region in Hin, Hoff, Hout |- *. rewrite Hin.
  rewrite verify_offset by lia.
  replace (va - region <=? size info) with false
    by (symmetry; apply Z.leb_gt; lia).
  cbn. unfold default_sigsegv, bind, get_state, ret. cbn. rewrite Hprev.
  rewrite call_ok by (assumption || reflexivity). cbn.
  rewrite get_mprotect_flags_bit, Hw.
  change (negb (Z.land (Z.lor PROT_READ PROT_WRITE) PROT_WRITE =? 0)) with true.
  cbn. rewrite Hcached. rewrite protect_ok by assumption. cbn.
  rewrite (alter_lookup_insert _ _ _ _ Hin), <- app_assoc. reflexivity.
Qed.

(** C6: a write fault inside a resident region marks it dirty and sets its
    protection to READ and WRITE; no other call is made (no store I/O), and
    the queue, the capacity and the statistics stay as they are. *)
Theorem handler_write_hit (env : Env) (s : State) (sig va : Z)
  (ctx : ucontext_t) (info : Info)
  (Hrel : reliable env)
  (HP : is_pagesize (kPagesize env))
  (Hva : 0 <= va < 2 ^ 64)
  (Hin : gAllocations s !! pagealign (kPagesize env) va = Some info)
  (Hreg : va < pagealign (kPagesize env) va + size info)
  (Hcached : cached info = true)
  (Hclean : dirty info = false)
  (Hw : Z.testbit (nth REG_ERR (gregs (uc_mcontext ctx)) 0) 1 = true) :
  let region := pagealign (kPagesize env) va in
  handler env sig va ctx s =
  (Ret tt,
   {| gAllocations :=
        <[region := {| rid := rid info; size := size info;
                       dirty := true; cached := true |}]> (gAllocations s);
      gRegionCache := gRegionCache s;
      gRegionCacheCapacity := gRegionCacheCapacity s;
      gStats := gStats s;
      trace := trace s ++
        [(Mprotect region (sizealign (kPagesize env) (size info))
            (Z.lor PROT_READ PROT_WRITE), 0)] |}).
Proof.
  intros region.
  rewrite (handler_write_resident env s sig va ctx info) by (assumption || lia).
  unfold set_dirty. rewrite Hcached. reflexivity.
Qed.

Lemma env0_pagesize : is_pagesize (kPagesize env0).
Proof. exists 12. split; [lia | reflexivity]. Qed.

Lemma handler_write_hit_witness :
  handler env0 SIGSEGV 65538 (ctx_err 7) st_one =
  (Ret tt,
   {| gAllocations :=
        {[ 65536 := {| rid := invalid_handle; size := 4;
                       dirty := true; cached := true |} ]};
      gRegionCache := [65536];
      gRegionCacheCapacity := 4;
      gStats := {| allocs := 1; frees := 0; cache_hits := 0; writebacks := 0 |};
      trace := trace st_one ++
        [(Mprotect 65536 4096 (Z.lor PROT_READ PROT_WRITE), 0)] |}).
Proof.
  apply (handler_write_hit env0 st_one SIGSEGV 65538 (ctx_err 7) (emptyInfo 4)
           env0_reliable env0_pagesize);
    solve [reflexivity | vm_compute; split; [discriminate | reflexivity]].
Defined.

(** C2 (the code does otherwise): a region of 4 bytes at 65536.  A write
    fault at 65540, the first byte after the region, is not chained at all:
    the region is marked dirty and made writable.  A write fault at 65600 is
    chained, but the handler does not return after the chained handler has:
    it marks the region dirty and makes it writable all the same. *)
Theorem handler_outside_region_served :
  gAllocations st_one !! pagealign (kPagesize env0) 65540 = Some (emptyInfo 4) /\
  handler env0 SIGSEGV 65540 (ctx_err 7) st_one =
  (Ret tt,
   {| gAllocations := {[ 65536 := set_dirty true (emptyInfo 4) ]};
      gRegionCache := [65536];
      gRegionCacheCapacity := 4;
      gStats := gStats st_one;
      trace := trace st_one ++
        [(Mprotect 65536 4096 (Z.lor PROT_READ PROT_WRITE), 0)] |}) /\
  handler env0 SIGSEGV 65600 (ctx_err 7) st_one =
  (Ret tt,
   {| gAllocations := {[ 65536 := set_dirty true (emptyInfo 4) ]};
      gRegionCache := [65536];
      gRegionCacheCapacity := 4;
      gStats := gStats st_one;
      trace := trace st_one ++
        [(PrevHandler SIGSEGV, 0);
         (Mprotect 65536 4096 (Z.lor PROT_READ PROT_WRITE), 0)] |}).
Proof. vm_compute. repeat split; reflexivity. Qed.

(** ** Relations that every step keeps *)

Section Stable.

Variable env : Env.
Variable R : State -> State -> Prop.
Hypothesis R_refl : forall s, R s s.
Hypothesis R_trans : forall s1 s2 s3, R s1 s2 -> R s2 s3 -> R s1 s3.

Lemma stable_ret {A} (a : A) : stable R (ret a).
Proof. intros s. apply R_refl. Qed.

Lemma stable_get_state : stable R get_state.
Proof. intros s. apply R_refl. Qed.

Lemma stable_throw {A} (w : string) : stable R (@throw A w).
Proof. intros s. apply R_refl. Qed.

Lemma stable_abort {A} : stable R (@abort A).
Proof. intros s. apply R_refl. Qed.

Lemma stable_bind {A B} (m : M A) (k : A -> M B) :
  stable R m -> (forall a, stable R (k a)) -> stable R (bind m k).
Proof.
  intros Hm Hk s. unfold bind. specialize (Hm s).
  destruct (m s) as [[a | w |] s1]; cbn in *.
  - apply R_trans with s1; [exact Hm | apply Hk].
  - exact Hm.
  - exact Hm.
Qed.

Lemma stable_when (b : bool) (m : M unit) : stable R m -> stable R (when b m).
Proof. intros Hm. destruct b; [exact Hm | apply stable_ret]. Qed.

Lemma stable_assert (b : bool) : stable R (assert b).
Proof. destruct b; [apply stable_ret | apply stable_abort]. Qed.

Lemma stable_if {A} (b : bool) (m1 m2 : M A) :
  stable R m1 -> stable R m2 -> stable R (if b then m1 else m2).
Proof. intros H1 H2. destruct b; assumption. Qed.

Lemma stable_modify (f : State -> State) :
  (forall s, R s (f s)) -> stable R (modify f).
Proof. intros H s. apply H. Qed.

(** the composition rules, applied as far as they go *)
Ltac compose :=
  repeat first
    [ assumption
    | match goal with H : forall _, _ |- stable _ _ => solve [apply H] end
    | apply stable_ret | apply stable_get_state | apply stable_throw
    | apply stable_abort | apply stable_assert
    | apply stable_when | apply stable_if
    | apply stable_bind; [| intros ?] ].

(** *** Steps that touch neither the queue nor the capacity *)

Hypothesis R_trace : forall s evs, R s (set_trace (trace s ++ evs) s).
Hypothesis R_table : forall s m, R s (set_gAllocations m s).
Hypothesis R_stats : forall s st, R s (set_gStats st s).

Lemma stable_call (c : Call) : stable R (call env c).
Proof. intros s. apply R_trace. Qed.

Lemma stable_protect (region size flags : Z) :
  stable R (protect env region size flags).
Proof. unfold protect. pose proof stable_call. compose. Qed.

Lemma stable_forget (region size : Z) : stable R (forget env region size).
Proof. unfold forget. pose proof stable_call. pose proof stable_protect. compose. Qed.

Lemma stable_db_get (rid : handle_t) : stable R (db.get env rid).
Proof. unfold db.get. pose proof stable_call. compose. Qed.

Lemma stable_db_put (element size : Z) : stable R (db.put env element size).
Proof. unfold db.put. pose proof stable_call. compose. Qed.

Lemma stable_db_put_rid (element size : Z) (rid : handle_t) :
  stable R (db.put_rid env element size rid).
Proof. unfold db.put_rid. pose proof stable_call. compose. Qed.

Lemma stable_db_del (rid : handle_t) : stable R (db.del env rid).
Proof. unfold db.del. pose proof stable_call. compose. Qed.

Lemma stable_db_init (path : string) (pagesize cachesize ncache : Z) :
  stable R (db.init env path pagesize cachesize ncache).
Proof. unfold db.init. pose proof stable_call. compose. Qed.

Lemma stable_allocated (addr : Z) : stable R (allocated addr).
Proof. unfold allocated. compose. Qed.

Lemma stable_deref (addr : Z) : stable R (deref addr).
Proof. unfold deref. compose. Qed.

Lemma stable_index (addr : Z) : stable R (index addr).
Proof.
  apply stable_modify. intros s.
  destruct (gAllocations s !! addr); [apply R_refl | apply R_table].
Qed.

Lemma stable_update (addr : Z) (f : Info -> Info) : stable R (update addr f).
Proof. apply stable_modify. intros s. apply R_table. Qed.

Lemma stable_erase (addr : Z) : stable R (erase addr).
Proof. apply stable_modify. intros s. apply R_table. Qed.

Lemma stable_count (f : Stats -> Stats) : stable R (count f).
Proof. apply stable_modify. intros s. apply R_stats. Qed.

Lemma stable_default_sigsegv (sig : Z) : stable R (default_sigsegv env sig).
Proof.
  unfold default_sigsegv. pose proof stable_call.
  apply stable_bind; [apply stable_get_state | intros s]. compose.
Qed.

(** the part of [writeback] that follows [pop_front] *)
Lemma stable_writeback_rest (addr : Z) :
  stable R
    (update addr (set_cached false);;
     info <- deref addr;
     if negb (dirty info) then
       forget env addr (size info);;
       count incr_cache_hits
     else
       protect env addr (size info) PROT_READ;;
       (if valid info then
          db.put_rid env addr (size info) (rid info)
        else
          r <- db.put env addr (size info);
          update addr (set_rid r));;
       update addr (set_dirty false);;
       forget env addr (size info);;
       count incr_writebacks).
Proof.
  pose proof stable_update. pose proof stable_deref. pose proof stable_forget.
  pose proof stable_protect. pose proof stable_count.
  pose proof stable_db_put. pose proof stable_db_put_rid.
  compose.
Qed.

(** *** Steps built on the admission to the queue *)

Hypothesis R_writeback : stable R (writeback env).
Hypothesis R_cacheRegion : forall addr, stable R (cacheRegion env addr).

Lemma stable_fsalloc (size : Z) : stable R (fsalloc env size).
Proof.
  unfold fsalloc. pose proof stable_call. pose proof stable_count.
  apply stable_bind; [apply stable_call | intros addr].
  apply stable_bind; [compose | intros _].
  apply stable_bind; [apply stable_modify; intros s; apply R_table | intros _].
  compose.
Qed.

Lemma stable_fsfree (addr : Z) : stable R (fsfree env addr).
Proof.
  unfold fsfree. pose proof stable_call. pose proof stable_count.
  pose proof stable_db_del. pose proof stable_erase.
  apply stable_bind; [apply stable_allocated | intros it].
  apply stable_bind; [| intros _; apply stable_count].
  destruct it; compose.
Qed.

Lemma stable_handler_fill (region flags : Z) :
  stable R (handler_fill env region flags).
Proof.
  unfold handler_fill. pose proof stable_call. pose proof stable_deref.
  pose proof stable_protect. pose proof stable_db_get. pose proof stable_update.
  compose.
Qed.

Lemma stable_handler (sig va : Z) (ctx : ucontext_t) :
  stable R (handler env sig va ctx).
Proof.
  unfold handler. pose proof stable_default_sigsegv. pose proof stable_update.
  pose proof stable_protect. pose proof stable_handler_fill.
  apply stable_bind; [apply stable_allocated | intros it].
  destruct it; compose.
Qed.

Lemma stable_exec (op : Op) : stable R (exec env op).
Proof.
  destruct op; cbn [exec].
  - pose proof stable_fsalloc. compose.
  - apply stable_fsfree.
  - apply stable_handler.
  - exact R_writeback.
Qed.

Lemma stable_run (ops : list Op) (s : State) : R s (run env ops s).
Proof.
  revert s. induction ops as [| op ops IH]; intros s; cbn [run].
  - apply R_refl.
  - apply R_trans with (snd (exec env op s)); [apply stable_exec | apply IH].
Qed.

End Stable.

Lemma stable_weaken (R1 R2 : State -> State -> Prop) {A} (m : M A) :
  (forall s s', R1 s s' -> R2 s s') -> stable R1 m -> stable R2 m.
Proof. intros H Hm s. apply H, Hm. Qed.

(** ** The bound on the queue *)

Lemma same_queue_refl (s : State) : same_queue s s.
Proof. split; reflexivity. Qed.

Lemma same_queue_trans (s1 s2 s3 : State) :
  same_queue s1 s2 -> same_queue s2 s3 -> same_queue s1 s3.
Proof. intros [H1 H2] [H3 H4]. split; congruence. Qed.

Lemma keeps_capacity_refl (s : State) : keeps_capacity s s.
Proof. split; [reflexivity | tauto]. Qed.

Lemma keeps_capacity_trans (s1 s2 s3 : State) :
  keeps_capacity s1 s2 -> keeps_capacity s2 s3 -> keeps_capacity s1 s3.
Proof. intros [H1 H2] [H3 H4]. split; [congruence | tauto]. Qed.

Lemma same_queue_keeps_capacity (s s' : State) :
  same_queue s s' -> keeps_capacity s s'.
Proof.
  intros [Hq Hc]. split; [exact Hc |]. unfold within_capacity.
  rewrite Hq, Hc. tauto.
Qed.

Lemma bind_ret_eq {A B} (m : M A) (k : A -> M B) (s s1 : State) (a : A) :
  m s = (Ret a, s1) -> bind m k s = k a s1.
Proof. intros H. unfold bind. rewrite H. reflexivity. Qed.

Lemma bind_abort_eq {A B} (m : M A) (k : A -> M B) (s s1 : State) :
  m s = (Abort, s1) -> bind m k s = (Abort, s1).
Proof. intros H. unfold bind. rewrite H. reflexivity. Qed.

(** whatever the environment answers, [writeback] removes the head of the
    queue and nothing else; on an empty queue the assertion stops it *)
Lemma writeback_pops (env : Env) (s : State) :
  gRegionCache (snd (writeback env s)) = tail (gRegionCache s) /\
  gRegionCacheCapacity (snd (writeback env s)) = gRegionCacheCapacity s.
Proof.
  unfold writeback.
  rewrite (bind_ret_eq get_state _ s s s eq_refl).
  destruct (gRegionCache s) as [| addr q] eqn:Hq.
  - cbn [length hd].
    rewrite (bind_abort_eq (assert (0 <? Z.of_nat 0)) _ s s eq_refl).
    cbn. rewrite Hq. split; reflexivity.
  - assert (Hpos : (0 <? Z.of_nat (length (addr :: q))) = true).
    { apply Z.ltb_lt. cbn [length]. lia. }
    rewrite Hpos.
    rewrite (bind_ret_eq (assert true) _ s s tt eq_refl).
    cbn [hd].
    erewrite (bind_ret_eq (index addr)) by reflexivity.
    erewrite (bind_ret_eq pop_front) by reflexivity.
    match goal with
    | |- context [snd (?rest ?s2)] =>
        assert (Hrest : same_queue s2 (snd (rest s2)))
    end.
    { apply (stable_writeback_rest env same_queue same_queue_refl same_queue_trans);
        intros; split; reflexivity. }
    destruct Hrest as [H1 H2]. rewrite H1, H2. cbn.
    destruct (gAllocations s !! addr); cbn; rewrite Hq; split; reflexivity.
Qed.

Lemma writeback_keeps_capacity (env : Env) :
  stable keeps_capacity (writeback env).
Proof.
  intros s. destruct (writeback_pops env s) as [Hq Hc].
  split; [exact Hc |]. unfold within_capacity. rewrite Hq, Hc.
  destruct (gRegionCache s); cbn [tail length]; lia.
Qed.

(** admission: the queue grows by one, and shrinks again when that is one
    too many *)
Lemma cacheRegion_queue (env : Env) (addr : Z) (s : State) :
  gRegionCache (snd (cacheRegion env addr s))
  = (if Z.of_nat (length (gRegionCache s ++ [addr])) >? gRegionCacheCapacity s
     then tail (gRegionCache s ++ [addr]) else gRegionCache s ++ [addr]) /\
  gRegionCacheCapacity (snd (cacheRegion env addr s)) = gRegionCacheCapacity s.
Proof.
  unfold cacheRegion.
  erewrite (bind_ret_eq (push_back addr)) by reflexivity.
  erewrite (bind_ret_eq get_state) by reflexivity.
  cbn [set_gRegionCache gRegionCache gRegionCacheCapacity].
  destruct (Z.of_nat (length (gRegionCache s ++ [addr])) >? gRegionCacheCapacity s);
    cbn [when].
  - destruct (writeback_pops env (set_gRegionCache (gRegionCache s ++ [addr]) s))
      as [Hq Hc].
    rewrite Hq, Hc. split; reflexivity.
  - split; reflexivity.
Qed.

Lemma cacheRegion_keeps_capacity (env : Env) (addr : Z) :
  stable keeps_capacity (cacheRegion env addr).
Proof.
  intros s. destruct (cacheRegion_queue env addr s) as [Hq Hc].
  split; [exact Hc |]. unfold within_capacity. rewrite Hq, Hc. intros Hin.
  destruct (Z.of_nat (length (gRegionCache s ++ [addr])) >? gRegionCacheCapacity s)
    eqn:E.
  - rewrite length_app in E. cbn [length] in E.
    destruct (gRegionCache s ++ [addr]) as [| x l] eqn:El.
    + cbn. lia.
    + assert (Hl : length (x :: l) = (length (gRegionCache s) + 1)%nat).
      { rewrite <- El, length_app. reflexivity. }
      cbn [tail]. cbn [length] in Hl. lia.
  - rewrite Z.gtb_ltb in E. apply Z.ltb_ge in E. exact E.
Qed.

Lemma run_keeps_capacity (env : Env) (ops : list Op) (s : State) :
  keeps_capacity s (run env ops s).
Proof.
  apply (stable_run env keeps_capacity keeps_capacity_refl keeps_capacity_trans).
  - intros s0 evs. apply same_queue_keeps_capacity. split; reflexivity.
  - intros s0 m. apply same_queue_keeps_capacity. split; reflexivity.
  - intros s0 st. apply same_queue_keeps_capacity. split; reflexivity.
  - apply writeback_keeps_capacity.
  - apply cacheRegion_keeps_capacity.
Qed.

(** C5: from a state whose queue is within the capacity, every sequence of
    allocate, free, fault and write-back operations leaves the queue within
    the capacity; and an admission in the state reached (in any state with
    that queue) has at most capacity + 1 entries queued after its
    [push_back] and at most capacity when it returns. *)
Theorem queue_within_capacity (env : Env) (ops : list Op) (s0 : State)
  (H0 : within_capacity s0) :
  let s := run env ops s0 in
  within_capacity s /\
  gRegionCacheCapacity s = gRegionCacheCapacity s0 /\
  forall addr s', same_queue s s' ->
    Z.of_nat (length (gRegionCache (snd (push_back addr s'))))
      <= gRegionCacheCapacity s0 + 1 /\
    within_capacity (snd (cacheRegion env addr s')).
Proof.
  intros s. destruct (run_keeps_capacity env ops s0) as [Hc Hin].
  fold s in Hc, Hin. specialize (Hin H0).
  split; [exact Hin |]. split; [exact Hc |].
  intros addr s' [Hq' Hc'].
  assert (Hin' : within_capacity s').
  { unfold within_capacity in *. rewrite Hq', Hc'. exact Hin. }
  split.
  - cbn. rewrite length_app. cbn [length].
    unfold within_capacity in Hin'. lia.
  - apply (cacheRegion_keeps_capacity env addr s'). exact Hin'.
Qed.

(** ** Eviction and allocation in a reliable environment *)

Lemma writeback_ok (env : Env) (s : State) (addr : Z) (q : list Z)
  (Hrel : reliable env)
  (Hq : gRegionCache s = addr :: q) :
  exists s', writeback env s = (Ret tt, s') /\ evicted addr s s'.
Proof.
  destruct (gAllocations s !! addr) as [info |] eqn:Hin.
  - pose proof (writeback_head_present env s addr q info Hrel Hq Hin) as H.
    cbv zeta in H. eexists. split; [exact H |].
    unfold evicted. rewrite Hq.
    destruct (dirty info); [destruct (valid info) |]; cbn;
      (repeat split; try reflexivity;
       [ tauto
       | intros b Hb; apply lookup_insert_ne; congruence
       | eexists; split; [reflexivity | repeat constructor] ]).
  - pose proof (writeback_head_missing env s addr q Hrel Hq Hin) as H.
    cbv zeta in H. eexists. split; [exact H |].
    unfold evicted. rewrite Hq. cbn.
    repeat split; try reflexivity;
      [ tauto
      | intros b Hb; apply lookup_insert_ne; congruence
      | eexists; split; [reflexivity | repeat constructor] ].
Qed.

Lemma hd_app_singleton (q : list Z) (a : Z) : hd 0 (q ++ [a]) = hd a q.
Proof. destruct q; reflexivity. Qed.

Lemma cacheRegion_ok (env : Env) (s : State) (addr : Z)
  (Hrel : reliable env) :
  let s1 := set_gRegionCache (gRegionCache s ++ [addr]) s in
  exists s', cacheRegion env addr s = (Ret tt, s') /\
    if Z.of_nat (length (gRegionCache s ++ [addr])) >? gRegionCacheCapacity s
    then writeback env s1 = (Ret tt, s') /\ evicted (hd addr (gRegionCache s)) s1 s'
    else s' = s1.
Proof.
  intros s1. unfold cacheRegion.
  erewrite (bind_ret_eq (push_back addr)) by reflexivity.
  erewrite (bind_ret_eq get_state) by reflexivity.
  cbn [set_gRegionCache gRegionCache gRegionCacheCapacity].
  destruct (Z.of_nat (length (gRegionCache s ++ [addr])) >? gRegionCacheCapacity s);
    cbn [when].
  - assert (El : gRegionCache s ++ [addr]
                 = hd addr (gRegionCache s) :: tail (gRegionCache s ++ [addr])).
    { destruct (gRegionCache s); reflexivity. }
    destruct (writeback_ok env s1 _ _ Hrel El) as [s' [Hw He]].
    exists s'. split; [exact Hw | split; [exact Hw | exact He]].
  - exists s1. split; reflexivity.
Qed.

Lemma fsalloc_ok (env : Env) (s : State) (size addr : Z)
  (Hrel : reliable env)
  (Hsize : 0 <= size < 2 ^ 32)
  (Hmmap : answer env (trace s)
             (Mmap size PROT_NONE (Z.lor MAP_ANONYMOUS MAP_PRIVATE)) = addr)
  (Hok : addr <> MAP_FAILED) :
  exists s2,
    fsalloc env size s = (Ret addr, set_gStats (incr_allocs (gStats s2)) s2) /\
    if Z.of_nat (length (gRegionCache s ++ [addr])) >? gRegionCacheCapacity s
    then writeback env (admitted size addr s) = (Ret tt, s2) /\
         evicted (hd addr (gRegionCache s)) (admitted size addr s) s2
    else s2 = admitted size addr s.
Proof.
  unfold fsalloc. rewrite (to_uint32_small size Hsize).
  assert (Hcall : call env (Mmap size PROT_NONE (Z.lor MAP_ANONYMOUS MAP_PRIVATE)) s
                  = (Ret addr,
                     set_trace (trace s ++
                       [(Mmap size PROT_NONE (Z.lor MAP_ANONYMOUS MAP_PRIVATE), addr)]) s)).
  { unfold call. rewrite Hmmap. reflexivity. }
  rewrite (bind_ret_eq _ _ _ _ _ Hcall).
  replace (addr =? MAP_FAILED) with false by (symmetry; apply Z.eqb_neq; exact Hok).
  erewrite (bind_ret_eq (when false _)) by reflexivity.
  erewrite (bind_ret_eq (modify _)) by reflexivity.
  match goal with |- context [bind (cacheRegion env addr) _ ?st] =>
    destruct (cacheRegion_ok env st addr Hrel) as [s2 [Hc He]]
  end.
  rewrite (bind_ret_eq _ _ _ _ _ Hc).
  exists s2. split; [reflexivity |]. exact He.
Qed.

(** C7: when [mmap] returns the address [addr] for a size above 0,
    [fsalloc] enters [Info{invalid_handle, size, dirty = false,
    cached = true}] for it and appends it to the queue (the state
    [admitted]); if the queue is then longer than the capacity it runs one
    write-back on that state, which removes the head of the queue; it adds
    one to [allocs] and returns [addr].  When [fsalloc] returns the new
    entry is as inserted, unless the region evicted was the new one itself:
    then it is the same entry with [cached = false]. *)
Theorem fsalloc_admits (env : Env) (s : State) (size addr : Z)
  (Hrel : reliable env)
  (Hsize : 0 < size < 2 ^ 32)
  (Hmmap : answer env (trace s)
             (Mmap size PROT_NONE (Z.lor MAP_ANONYMOUS MAP_PRIVATE)) = addr)
  (Hok : addr <> MAP_FAILED) :
  let s1 := admitted size addr s in
  let over := Z.of_nat (length (gRegionCache s1)) >? gRegionCacheCapacity s1 in
  gAllocations s1 !! addr
  = Some {| rid := invalid_handle; size := size; dirty := false; cached := true |} /\
  gRegionCache s1 = gRegionCache s ++ [addr] /\
  exists s2 s',
    fsalloc env size s = (Ret addr, s') /\
    (if over then writeback env s1 = (Ret tt, s2) else s2 = s1) /\
    s' = set_gStats (incr_allocs (gStats s2)) s2 /\
    gRegionCache s' = (if over then tail (gRegionCache s1) else gRegionCache s1) /\
    gRegionCacheCapacity s' = gRegionCacheCapacity s /\
    allocs (gStats s') = to_uint64 (allocs (gStats s) + 1) /\
    frees (gStats s') = frees (gStats s) /\
    (over = false \/ hd addr (gRegionCache s) <> addr ->
     gAllocations s' !! addr = Some (emptyInfo size)) /\
    (over = true /\ hd addr (gRegionCache s) = addr ->
     gAllocations s' !! addr = Some (set_cached false (emptyInfo size))).
Proof.
  intros s1 over.
  split; [apply lookup_insert_eq |]. split; [reflexivity |].
  destruct (fsalloc_ok env s size addr Hrel ltac:(lia) Hmmap Hok) as [s2 [Hf He]].
  exists s2, (set_gStats (incr_allocs (gStats s2)) s2).
  split; [exact Hf |].
  fold s1 in He. change (gRegionCache s ++ [addr]) with (gRegionCache s1) in He.
  change (gRegionCacheCapacity s) with (gRegionCacheCapacity s1) in He.
  fold over in He.
  destruct over.
  - destruct He as [Hw (Hq & Hc & Ha & Hfr & _ & Htbl & _)].
    split; [exact Hw |]. split; [reflexivity |]. cbn.
    split; [exact Hq |]. split; [exact Hc |].
    split; [rewrite Ha; reflexivity |]. split; [exact Hfr |]. split.
    + intros [Hfalse | Hne]; [discriminate Hfalse |].
      rewrite Htbl by congruence. apply lookup_insert_eq.
    + intros [_ Hhd].
      (* the head of the queue is the new region: it is evicted clean *)
      assert (El : gRegionCache s1 = addr :: tail (gRegionCache s ++ [addr])).
      { unfold s1. cbn. destruct (gRegionCache s); cbn in *; congruence. }
      pose proof (writeback_head_present env s1 addr _ (emptyInfo size) Hrel El
                    (lookup_insert_eq _ _ _)) as Hw'.
      cbv zeta in Hw'. rewrite Hw in Hw'. injection Hw' as ->.
      cbn. apply lookup_insert_eq.
  - subst s2. split; [reflexivity |]. split; [reflexivity |]. cbn.
    repeat split.
    + intros _. apply lookup_insert_eq.
    + intros [Hfalse _]. discriminate Hfalse.
Qed.

Lemma fsalloc_admits_witness :
  exists s',
    fsalloc env0 8 st_full = (Ret 131072, s') /\
    gRegionCache s' = [131072] /\
    allocs (gStats s') = 2 /\
    gAllocations s' !! 131072 = Some (emptyInfo 8).
Proof.
  destruct (fsalloc_admits env0 st_full 8 131072 env0_reliable)
    as (_ & _ & s2 & s' & Hf & _ & _ & Hq & _ & Ha & _ & Htbl & _);
    [lia | reflexivity | discriminate |].
  exists s'. split; [exact Hf |]. split; [exact Hq |]. split; [exact Ha |].
  apply Htbl. right. discriminate.
Defined.

Lemma fresh_within_capacity (C : Z) : 0 <= C -> within_capacity (fresh C).
Proof. intros H. exact H. Qed.

Lemma queue_within_capacity_witness :
  within_capacity
    (run env0
       [Allocate 4; Allocate 8; Fault SIGSEGV 131072 (ctx_err 7);
        Free 65536; Allocate 4; Writeback]
       (fresh 1)).
Proof.
  refine (proj1 (queue_within_capacity env0 _ (fresh 1) _)).
  apply fresh_within_capacity. lia.
Defined.

(** [init] leaves the queue empty and the capacity at 0 or above,
    whatever the environment answers *)
Lemma init_within_capacity (env : Env) (path : string) (capacity : Z) :
  within_capacity (snd (init env path capacity boot)).
Proof.
  pose (R := fun s s' : State =>
          gRegionCache s' = gRegionCache s /\
          (0 <= gRegionCacheCapacity s -> 0 <= gRegionCacheCapacity s')).
  assert (Hrefl : forall s, R s s) by (intros s; split; tauto).
  assert (Htrans : forall s1 s2 s3, R s1 s2 -> R s2 s3 -> R s1 s3).
  { intros s1 s2 s3 [H1 H2] [H3 H4]. split; [congruence | tauto]. }
  assert (Htrace : forall s evs, R s (set_trace (trace s ++ evs) s))
    by (intros; split; [reflexivity | tauto]).
  assert (Hinit : stable R (init env path capacity)).
  { unfold init.
    apply (stable_bind R Htrans); [apply (stable_call env R Htrace) | intros r].
    apply (stable_bind R Htrans);
      [apply (stable_when R Hrefl), (stable_throw R Hrefl) | intros _].
    apply (stable_bind R Htrans).
    { apply stable_modify. intros s. split; [reflexivity | intros _].
      cbn. unfold to_uint32. apply Z.mod_pos_bound. lia. }
    intros _. apply (stable_bind R Htrans).
    { apply stable_modify. intros s. split; [reflexivity | tauto]. }
    intros _. apply (stable_db_init env R Hrefl Htrans Htrace). }
  destruct (Hinit boot) as [Hq Hc]. unfold within_capacity.
  rewrite Hq. cbn in *. apply Hc. lia.
Qed.

(** the bound of the queue for every run that starts with [init] *)
Lemma queue_within_capacity_from_init (env : Env) (path : string)
  (capacity : Z) (ops : list Op) :
  within_capacity (run env ops (snd (init env path capacity boot))).
Proof.
  destruct (run_keeps_capacity env ops (snd (init env path capacity boot)))
    as [_ H].
  apply H, init_within_capacity.
Qed.

(** ** Allocations each followed by a write *)

(** distinct numbers below [n] are at most [n] many *)
Lemma NoDup_range_length (l : list Z) (n : Z) :
  0 <= n -> List.NoDup l -> (forall x, In x l -> 0 <= x < n) ->
  Z.of_nat (length l) <= n.
Proof.
  intros H0 Hnd Hr.
  assert (Hn : List.NoDup (map Z.to_nat l)).
  { apply NoDup_map_NoDup_ForallPairs; [| exact Hnd].
    intros x y Hx Hy Heq. apply Hr in Hx, Hy. lia. }
  assert (Hi : incl (map Z.to_nat l) (seq 0 (Z.to_nat n))).
  { intros y Hy. apply in_map_iff in Hy. destruct Hy as [x [<- Hx]].
    apply Hr in Hx. apply in_seq. lia. }
  pose proof (NoDup_incl_length Hn Hi) as Hlen.
  rewrite length_map, length_seq in Hlen. lia.
Qed.

Lemma mmapped_app (t1 t2 : list Event) :
  mmapped (t1 ++ t2) = mmapped t1 ++ mmapped t2.
Proof. unfold mmapped. apply flat_map_app. Qed.

Lemma mmapped_quiet (evs : list Event) :
  Forall (fun e => is_map_call (fst e) = false) evs -> mmapped evs = [].
Proof.
  induction 1 as [| [c r] evs Hc _ IH]; [reflexivity |].
  change (mmapped ((c, r) :: evs))
    with (match c with
          | Mmap _ _ _ => if r =? MAP_FAILED then [] else [r]
          | _ => []
          end ++ mmapped evs).
  rewrite IH. cbn in Hc. destruct c; try reflexivity; discriminate Hc.
Qed.

Lemma no_munmap_app (t1 t2 : list Event) :
  no_munmap t1 -> no_munmap t2 -> no_munmap (t1 ++ t2).
Proof.
  intros H1 H2 a l r Hin. apply in_app_or in Hin.
  destruct Hin as [Hin | Hin]; [exact (H1 a l r Hin) | exact (H2 a l r Hin)].
Qed.

Lemma no_munmap_quiet (evs : list Event) :
  Forall (fun e => is_map_call (fst e) = false) evs -> no_munmap evs.
Proof.
  intros Hq a l r Hin. rewrite Forall_forall in Hq.
  apply list_elem_of_In in Hin. specialize (Hq _ Hin). discriminate Hq.
Qed.

Lemma init_ok (env : Env) (path : string) (capacity : Z)
  (Hrel : reliable env) :
  init env path capacity boot =
  (Ret tt,
   {| gAllocations := ∅;
      gRegionCache := [];
      gRegionCacheCapacity := to_uint32 capacity;
      gStats := zeroStats;
      trace := [(Sigaction SIGSEGV SA_SIGINFO, 0); (DbCreate, 0);
                (DbSetPagesize (kPagesize env), 0);
                (DbSetCachesize (1024 / kGigabyte) (1024 mod kGigabyte) 1, 0);
                (DbOpen path, 0)] |}).
Proof.
  unfold init, db.init, bind.
  repeat (rewrite call_ok by (assumption || reflexivity); cbn).
  reflexivity.
Qed.

Lemma fsalloc_fail (env : Env) (s : State) (size : Z)
  (Hsize : 0 <= size < 2 ^ 32)
  (Hmmap : answer env (trace s)
             (Mmap size PROT_NONE (Z.lor MAP_ANONYMOUS MAP_PRIVATE)) = MAP_FAILED) :
  fsalloc env size s =
  (Throw "fsalloc: mmap failed",
   set_trace (trace s ++
     [(Mmap size PROT_NONE (Z.lor MAP_ANONYMOUS MAP_PRIVATE), MAP_FAILED)]) s).
Proof.
  unfold fsalloc, bind, call. rewrite (to_uint32_small size Hsize), Hmmap.
  reflexivity.
Qed.

(** [fsalloc] when the new address is not queued already *)
Lemma fsalloc_effect (env : Env) (s : State) (size a : Z)
  (Hrel : reliable env)
  (Hsize : 0 <= size < 2 ^ 32)
  (Hmmap : answer env (trace s)
             (Mmap size PROT_NONE (Z.lor MAP_ANONYMOUS MAP_PRIVATE)) = a)
  (Hok : a <> MAP_FAILED)
  (Hcap : 1 <= gRegionCacheCapacity s)
  (Hnew : ~ In a (gRegionCache s)) :
  exists s',
    fsalloc env size s = (Ret a, s') /\
    gAllocations s' !! a = Some (emptyInfo size) /\
    gRegionCacheCapacity s' = gRegionCacheCapacity s /\
    (exists evs,
        trace s' = trace s ++
          (Mmap size PROT_NONE (Z.lor MAP_ANONYMOUS MAP_PRIVATE), a) :: evs /\
        Forall (fun e => is_map_call (fst e) = false) evs) /\
    (Z.of_nat (length (gRegionCache s)) + 1 <= gRegionCacheCapacity s /\
     gRegionCache s' = gRegionCache s ++ [a] /\
     cache_hits (gStats s') = cache_hits (gStats s) /\
     writebacks (gStats s') = writebacks (gStats s)
     \/
     Z.of_nat (length (gRegionCache s)) + 1 > gRegionCacheCapacity s /\
     gRegionCache s' = tail (gRegionCache s ++ [a]) /\
     (cache_hits (gStats s') = to_uint64 (cache_hits (gStats s) + 1) /\
      writebacks (gStats s') = writebacks (gStats s)
      \/
      writebacks (gStats s') = to_uint64 (writebacks (gStats s) + 1) /\
      cache_hits (gStats s') = cache_hits (gStats s))).
Proof.
  destruct (fsalloc_ok env s size a Hrel Hsize Hmmap Hok) as [s2 [Hf He]].
  exists (set_gStats (incr_allocs (gStats s2)) s2). split; [exact Hf |].
  assert (Hlen : Z.of_nat (length (gRegionCache s ++ [a]))
                 = Z.of_nat (length (gRegionCache s)) + 1).
  { rewrite length_app. cbn [length]. lia. }
  rewrite Hlen in He. clear Hlen.
  destruct (Z.of_nat (length (gRegionCache s)) + 1 >? gRegionCacheCapacity s)
    eqn:Hover.
  - destruct He as [_ (Hq & Hc & _ & _ & Hcnt & Htbl & evs & Htr & Hquiet)].
    assert (Hhd : hd a (gRegionCache s) <> a).
    { destruct (gRegionCache s) as [| x q] eqn:Eq.
      - cbn [length] in Hover. rewrite Z.gtb_ltb in Hover.
        apply Z.ltb_lt in Hover. lia.
      - cbn. intros ->. apply Hnew. left. reflexivity. }
    cbn. split; [rewrite Htbl by congruence; apply lookup_insert_eq |].
    split; [exact Hc |]. split.
    + exists evs. split; [| exact Hquiet].
      rewrite Htr. cbn. rewrite <- app_assoc. reflexivity.
    + right. split; [rewrite Z.gtb_ltb in Hover; apply Z.ltb_lt in Hover; lia |].
      split; [exact Hq | exact Hcnt].
  - subst s2. cbn. split; [apply lookup_insert_eq |]. split; [reflexivity |].
    split.
    + exists []. split; [reflexivity | constructor].
    + left. rewrite Z.gtb_ltb in Hover. apply Z.ltb_ge in Hover.
      repeat split; try reflexivity. lia.
Qed.

Lemma pagealign_base (P a off : Z) :
  is_pagesize P -> 0 <= a -> a mod P = 0 -> 0 <= off < P -> a + off < 2 ^ 64 ->
  pagealign P (a + off) = a.
Proof.
  intros HP Ha Hal Hoff Hend.
  rewrite (pagealign_mod P (a + off) HP) by lia.
  pose proof (is_pagesize_bounds P HP) as Hb.
  rewrite (multiple_eq P a ltac:(lia) Hal) at 2.
  replace (P * (a / P) + off) with (off + a / P * P) by lia.
  rewrite Z.mod_add by lia. rewrite Z.mod_small by lia. lia.
Qed.

Lemma alloc_write_step (env : Env) (C k : Z) (s : State) (w : AllocWrite) (a : Z)
  (Hrel : reliable env)
  (HP : is_pagesize (kPagesize env))
  (Hfresh : mmap_fresh env)
  (HC : 1 <= C)
  (Hw : served_write (kPagesize env) w)
  (Hinv : after_allocs C k s)
  (Hmmap : answer env (trace s)
             (Mmap (aw_size w) PROT_NONE (Z.lor MAP_ANONYMOUS MAP_PRIVATE)) = a)
  (Hok : a <> MAP_FAILED) :
  exists s2 s3,
    fsalloc env (aw_size w) s = (Ret a, s2) /\
    handler env SIGSEGV (a + aw_offset w) (aw_ctx w) s2 = (Ret tt, s3) /\
    after_allocs C (k + 1) s3.
Proof.
  destruct Hw as (Hsize & Hoff & HoffP & Hbit).
  destruct Hinv as [Icap Iq Ih Iw Iev Iqd Ind Irg Icnt Imap].
  pose proof (Hfresh (trace s) (aw_size w) PROT_NONE (Z.lor MAP_ANONYMOUS MAP_PRIVATE))
    as Hf. cbv zeta in Hf. rewrite Hmmap in Hf.
  destruct (Hf Hok) as (Ha0 & Hend & Hal & Hre). clear Hf.
  assert (Hnew : ~ In a (mmapped (trace s))).
  { intros Hin. destruct (Hre Hin) as (l & r & Hm). exact (Imap a l r Hm). }
  destruct (fsalloc_effect env s (aw_size w) a Hrel ltac:(lia) Hmmap Hok
              ltac:(lia) ltac:(intros Hin; apply Hnew, Iqd, Hin))
    as (s2 & Hfs & Htbl & Hcap2 & (evs & Htr & Hquiet) & Hcases).
  assert (Hpa : pagealign (kPagesize env) (a + aw_offset w) = a).
  { apply pagealign_base; try assumption; lia. }
  pose proof (handler_write_resident env s2 SIGSEGV (a + aw_offset w) (aw_ctx w)
                (emptyInfo (aw_size w)) Hrel HP ltac:(lia)) as Hh.
  rewrite Hpa in Hh. specialize (Hh Htbl ltac:(cbn; lia) eq_refl Hbit).
  cbv zeta in Hh.
  eexists s2, _. split; [exact Hfs |]. split; [exact Hh |].
  (* the addresses mapped so far *)
  assert (Hmm : mmapped (trace s2) = mmapped (trace s) ++ [a]).
  { rewrite Htr.
    change (?x :: evs) with ([x] ++ evs).
    rewrite !mmapped_app, (mmapped_quiet evs Hquiet), app_nil_r.
    f_equal. cbn. replace (a =? MAP_FAILED) with false; [reflexivity |].
    symmetry. apply Z.eqb_neq. exact Hok. }
  assert (Hmm3 : mmapped (trace s2 ++
                   [(Mprotect a (sizealign (kPagesize env) (size (emptyInfo (aw_size w))))
                       (Z.lor PROT_READ PROT_WRITE), 0)])
                 = mmapped (trace s) ++ [a]).
  { rewrite mmapped_app, Hmm. cbn. apply app_nil_r. }
  assert (Hnd : List.NoDup (mmapped (trace s) ++ [a])).
  { apply List.NoDup_app; [exact Ind | repeat constructor; intros [] |].
    intros x Hx [<- | []]. exact (Hnew Hx). }
  assert (Hrg : forall x, In x (mmapped (trace s) ++ [a]) -> 0 <= x < 2 ^ 64).
  { intros x Hx. apply in_app_or in Hx. destruct Hx as [Hx | [<- | []]].
    - apply Irg, Hx.
    - lia. }
  assert (Hk : k + 1 <= 2 ^ 64).
  { pose proof (NoDup_range_length _ (2 ^ 64) ltac:(lia) Hnd Hrg) as Hl.
    rewrite length_app in Hl. cbn [length] in Hl. lia. }
  constructor; cbn [gRegionCacheCapacity gRegionCache gStats trace].
  - congruence.
  - destruct Hcases as [(Hle & Hq & _) | (Hgt & Hq & _)]; rewrite Hq.
    + rewrite length_app. cbn [length]. lia.
    + destruct (gRegionCache s ++ [a]) as [| x l] eqn:El.
      { destruct (gRegionCache s); discriminate El. }
      assert (Hl : length (x :: l) = (length (gRegionCache s) + 1)%nat).
      { rewrite <- El, length_app. reflexivity. }
      cbn [tail]. cbn [length] in Hl. lia.
  - destruct Hcases as [(_ & _ & -> & _) | (Hgt & _ & [[-> _] | [_ ->]])];
      try assumption.
    unfold to_uint64. apply Z.mod_pos_bound. lia.
  - destruct Hcases as [(_ & _ & _ & ->) | (Hgt & _ & [[_ ->] | [-> _]])];
      try assumption.
    unfold to_uint64. apply Z.mod_pos_bound. lia.
  - destruct Hcases as [(Hle & _ & -> & ->) | (Hgt & _ & [[-> ->] | [-> ->]])].
    + lia.
    + rewrite to_uint64_small by lia. lia.
    + rewrite to_uint64_small by lia. lia.
  - intros x Hx. rewrite Hmm3. apply in_or_app.
    assert (Hx' : In x (gRegionCache s ++ [a])).
    { destruct Hcases as [(_ & Hq & _) | (_ & Hq & _)]; rewrite Hq in Hx.
      - exact Hx.
      - destruct (gRegionCache s ++ [a]); [contradiction | right; exact Hx]. }
    apply in_app_or in Hx'. destruct Hx' as [Hx' | Hx']; [left | right; exact Hx'].
    apply Iqd, Hx'.
  - rewrite Hmm3. exact Hnd.
  - rewrite Hmm3. exact Hrg.
  - rewrite Hmm3, length_app. cbn [length]. lia.
  - rewrite Htr.
    change (?x :: evs) with ([x] ++ evs).
    repeat apply no_munmap_app; try assumption.
    + intros x l r [Hx | []]. discriminate Hx.
    + apply no_munmap_quiet, Hquiet.
    + intros x l r [Hx | []]. discriminate Hx.
Qed.

Lemma bind_throw_eq {A B} (m : M A) (k : A -> M B) (s s1 : State) (w : string) :
  m s = (Throw w, s1) -> bind m k s = (Throw w, s1).
Proof. intros H. unfold bind. rewrite H. reflexivity. Qed.

Lemma alloc_write_loop_ok (env : Env) (C : Z) (ws : list AllocWrite)
  (Hrel : reliable env)
  (HP : is_pagesize (kPagesize env))
  (Hfresh : mmap_fresh env)
  (HC : 1 <= C)
  (Hws : Forall (served_write (kPagesize env)) ws) :
  forall k s,
    after_allocs C k s ->
    no_mmap_failure (trace (snd (alloc_write_loop env ws s))) ->
    fst (alloc_write_loop env ws s) = Ret tt /\
    after_allocs C (k + Z.of_nat (length ws)) (snd (alloc_write_loop env ws s)).
Proof.
  induction Hws as [| w ws Hw Hws IH]; intros k s Hinv Hnf.
  - cbn. split; [reflexivity |]. rewrite Z.add_0_r. exact Hinv.
  - cbn [alloc_write_loop] in *.
    destruct (Z.eq_dec
                (answer env (trace s)
                   (Mmap (aw_size w) PROT_NONE (Z.lor MAP_ANONYMOUS MAP_PRIVATE)))
                MAP_FAILED) as [Hfail | Hok].
    + (* the run stops at the failed mmap, which its trace shows *)
      exfalso.
      destruct Hw as (Hsize & _).
      rewrite (bind_throw_eq _ _ _ _ _
                 (fsalloc_fail env s (aw_size w) ltac:(lia) Hfail)) in Hnf.
      unfold no_mmap_failure in Hnf. cbn [snd set_trace trace] in Hnf.
      rewrite existsb_app in Hnf. apply orb_false_elim in Hnf.
      destruct Hnf as [_ Hnf]. discriminate Hnf.
    + destruct (alloc_write_step env C k s w _ Hrel HP Hfresh HC Hw Hinv eq_refl Hok)
        as (s2 & s3 & Hfs & Hh & Hinv3).
      rewrite (bind_ret_eq _ _ _ _ _ Hfs) in Hnf |- *.
      rewrite (bind_ret_eq _ _ _ _ _ Hh) in Hnf |- *.
      destruct (IH (k + 1) s3 Hinv3 Hnf) as [Hr Hinv'].
      split; [exact Hr |].
      replace (k + Z.of_nat (length (w :: ws)))
        with (k + 1 + Z.of_nat (length ws)) by (cbn [length]; lia).
      exact Hinv'.
Qed.

(** C8: in a reliable environment whose [mmap] hands out fresh page-aligned
    ranges, run [init] with a capacity [C >= 1] and then [N] allocations,
    each followed by a write into the new region that faults in its first
    page.  If no [mmap] of the run failed, the run returns, the queue holds
    [min N C] regions, and [writebacks + cache_hits] is [max 0 (N - C)]. *)
Theorem alloc_write_evictions (env : Env) (path : string) (C : Z)
  (ws : list AllocWrite)
  (Hrel : reliable env)
  (HP : is_pagesize (kPagesize env))
  (Hfresh : mmap_fresh env)
  (HC : 1 <= C < 2 ^ 32)
  (Hws : Forall (served_write (kPagesize env)) ws)
  (Hnf : no_mmap_failure (trace (snd (scenario env path C ws)))) :
  let N := Z.of_nat (length ws) in
  let s := snd (scenario env path C ws) in
  fst (scenario env path C ws) = Ret tt /\
  Z.of_nat (length (gRegionCache s)) = Z.min N C /\
  writebacks (gStats s) + cache_hits (gStats s) = Z.max 0 (N - C).
Proof.
  intros N s. subst N s. unfold scenario in *.
  rewrite (bind_ret_eq _ _ _ _ _ (init_ok env path C Hrel)) in Hnf |- *.
  match type of Hnf with
  | context [alloc_write_loop env ws ?s0] =>
      assert (H0 : after_allocs C 0 s0)
  end.
  { constructor; cbn; try lia.
    - apply to_uint32_small. lia.
    - constructor.
    - intros a l r Hin. repeat destruct Hin as [Hin | Hin]; try discriminate Hin.
      exact Hin. }
  destruct (alloc_write_loop_ok env C ws Hrel HP Hfresh ltac:(lia) Hws 0 _ H0 Hnf)
    as [Hr Hinv].
  split; [exact Hr |].
  destruct Hinv as [_ Iq _ _ Iev _ _ _ _ _].
  split; [exact Iq | exact Iev].
Qed.

Lemma top_nonneg (tr : list Event) : 0 <= top tr.
Proof.
  induction tr as [| [c r] tr IH]; [reflexivity |].
  unfold top in *. cbn [fold_right fst snd]. destruct c; lia.
Qed.

Lemma mmapped_le_top (tr : list Event) (a : Z) : In a (mmapped tr) -> a <= top tr.
Proof.
  induction tr as [| [c r] tr IH]; [intros [] |].
  change (mmapped ((c, r) :: tr))
    with (match c with
          | Mmap _ _ _ => if r =? MAP_FAILED then [] else [r]
          | _ => []
          end ++ mmapped tr).
  intros Hin. apply in_app_or in Hin.
  assert (Htail : In a (mmapped tr) -> a <= top ((c, r) :: tr)).
  { intros H. specialize (IH H). unfold top in *. cbn [fold_right fst snd].
    destruct c; lia. }
  destruct Hin as [Hin | Hin]; [| exact (Htail Hin)].
  destruct c; try contradiction.
  destruct (r =? MAP_FAILED); [contradiction |].
  destruct Hin as [<- | []]. unfold top. cbn [fold_right fst snd]. lia.
Qed.

Lemma env0_fresh : mmap_fresh env0.
Proof.
  intros tr len prot flags a Hok. subst a. cbn in *.
  pose proof (top_nonneg tr) as Ht.
  pose proof (Z.div_mod (top tr) 65536 ltac:(lia)) as Hdm.
  pose proof (Z.mod_pos_bound (top tr) 65536 ltac:(lia)) as Hmb.
  destruct ((0 <? len) && (len <=? 2 ^ 32) && ((top tr / 65536 + 1) * 65536 <? 2 ^ 47))
    eqn:E; [| contradiction].
  apply andb_prop in E. destruct E as [E E3].
  apply andb_prop in E. destruct E as [E1 E2].
  apply Z.ltb_lt in E1, E3. apply Z.leb_le in E2.
  split; [lia |]. split; [lia |]. split.
  - replace ((top tr / 65536 + 1) * 65536)
      with (0 + (top tr / 65536 + 1) * 16 * 4096) by lia.
    rewrite Z.mod_add by lia. reflexivity.
  - intros Hin. apply mmapped_le_top in Hin. lia.
Qed.

Lemma alloc_write_evictions_witness :
  fst (scenario env0 "/tmp/fsalloc.bdb" 2 five_ints) = Ret tt /\
  Z.of_nat (length (gRegionCache (snd (scenario env0 "/tmp/fsalloc.bdb" 2 five_ints)))) = 2 /\
  writebacks (gStats (snd (scenario env0 "/tmp/fsalloc.bdb" 2 five_ints)))
  + cache_hits (gStats (snd (scenario env0 "/tmp/fsalloc.bdb" 2 five_ints))) = 3.
Proof.
  apply (alloc_write_evictions env0 "/tmp/fsalloc.bdb" 2 five_ints
           env0_reliable env0_pagesize env0_fresh).
  - lia.
  - repeat constructor; vm_compute; congruence.
  - vm_compute. reflexivity.
Defined.

(** * Further properties of the code *)

Arguments fsalloc : simpl never.
Arguments fsfree : simpl never.
Arguments handler : simpl never.
Arguments init : simpl never.

(** ** Alignment and [verify] at their bounds *)

(** X1: a size within a page of [2^32] makes the 32-bit sum in [sizealign]
    wrap: the aligned size is 0, so [protect], [forget] and the [munmap] of
    [fsfree] act on 0 bytes for such a region. *)
Theorem sizealign_wraps (P size : Z)
  (HP : is_pagesize P)
  (Hsize : 2 ^ 32 - P < size < 2 ^ 32) :
  sizealign P size = 0.
Proof.
  pose proof (is_pagesize_bounds P HP) as Hb.
  unfold sizealign.
  rewrite (to_uint32_small size) by lia.
  rewrite (to_uint32_small P) by lia.
  unfold to_uint32 at 2 3. rewrite Zminus_mod_idemp_l.
  replace (size + P - 1) with (size + P - 1 - 2 ^ 32 + 1 * 2 ^ 32) by lia.
  rewrite Z.mod_add by lia.
  rewrite (Z.mod_small (size + P - 1 - 2 ^ 32)) by lia.
  rewrite Z.div_small by lia. reflexivity.
Qed.

Lemma sizealign_wraps_witness : sizealign 4096 (2 ^ 32 - 100) = 0.
Proof.
  apply (sizealign_wraps 4096 (2 ^ 32 - 100)).
  - exists 12. split; [lia | reflexivity].
  - lia.
Defined.

(** X2: in the handler, where the region is the page of the faulting
    address, [verify] accepts the fault exactly when its offset in the page
    is at most the size: the byte at offset [size], just behind the region,
    is accepted, and a region of at least a page less one byte accepts the
    whole page. *)
Theorem verify_in_page (P a size : Z)
  (HP : is_pagesize P)
  (Ha : 0 <= a < 2 ^ 64) :
  verify (pagealign P a) a size = (a - pagealign P a <=? size) /\
  (P - 1 <= size -> verify (pagealign P a) a size = true).
Proof.
  destruct (pagealign_bounds P a HP Ha) as [Hoff _].
  pose proof (is_pagesize_bounds P HP) as Hb.
  assert (E : verify (pagealign P a) a size = (a - pagealign P a <=? size)).
  { apply verify_offset. lia. }
  split; [exact E |].
  intros Hbig. rewrite E. apply Z.leb_le. lia.
Qed.

Lemma verify_in_page_witness :
  verify (pagealign 4096 65540) 65540 4 = (65540 - pagealign 4096 65540 <=? 4).
Proof.
  refine (proj1 (verify_in_page 4096 65540 4 _ _)).
  - exists 12. split; [lia | reflexivity].
  - lia.
Defined.

(** ** Faults *)

(** X3: a fault on a page that has no entry is handed to the previously
    installed handler and nothing else happens: no other call is made, and
    the table, the queue and the statistics are untouched.  The handler
    returns when the previous handler does. *)
Theorem handler_unknown_page (env : Env) (s : State) (sig va : Z)
  (ctx : ucontext_t)
  (Hin : gAllocations s !! pagealign (kPagesize env) va = None) :
  handler env sig va ctx s =
  (if prev_returns env (trace s) sig then Ret tt else Abort,
   {| gAllocations := gAllocations s;
      gRegionCache := gRegionCache s;
      gRegionCacheCapacity := gRegionCacheCapacity s;
      gStats := gStats s;
      trace := trace s ++
        [(PrevHandler sig, answer env (trace s) (PrevHandler sig))] |}).
Proof.
  unfold handler, bind, allocated, get_state, ret. cbn. rewrite Hin.
  unfold default_sigsegv, bind, get_state. cbn.
  destruct (prev_returns env (trace s) sig); reflexivity.
Qed.

Lemma handler_unknown_page_witness :
  handler env0 SIGSEGV 12345 (ctx_err 4) st_one =
  (Ret tt,
   {| gAllocations := gAllocations st_one;
      gRegionCache := [65536];
      gRegionCacheCapacity := 4;
      gStats := gStats st_one;
      trace := trace st_one ++ [(PrevHandler SIGSEGV, 0)] |}).
Proof.
  apply (handler_unknown_page env0 st_one SIGSEGV 12345 (ctx_err 4)).
  reflexivity.
Defined.

(** ** Allocation and release *)

(** X4: when [mmap] fails, [fsalloc] throws "fsalloc: mmap failed" and has
    done nothing but the call: no entry, nothing queued, no counter moved. *)
Theorem fsalloc_mmap_failure (env : Env) (s : State) (size : Z)
  (Hsize : 0 <= size < 2 ^ 32)
  (Hmmap : answer env (trace s)
             (Mmap size PROT_NONE (Z.lor MAP_ANONYMOUS MAP_PRIVATE)) = MAP_FAILED) :
  fsalloc env size s =
  (Throw "fsalloc: mmap failed",
   {| gAllocations := gAllocations s;
      gRegionCache := gRegionCache s;
      gRegionCacheCapacity := gRegionCacheCapacity s;
      gStats := gStats s;
      trace := trace s ++
        [(Mmap size PROT_NONE (Z.lor MAP_ANONYMOUS MAP_PRIVATE), MAP_FAILED)] |}).
Proof. exact (fsalloc_fail env s size Hsize Hmmap). Qed.

Lemma fsalloc_mmap_failure_witness :
  fsalloc env0 0 st_one =
  (Throw "fsalloc: mmap failed",
   {| gAllocations := gAllocations st_one;
      gRegionCache := [65536];
      gRegionCacheCapacity := 4;
      gStats := gStats st_one;
      trace := trace st_one ++
        [(Mmap 0 PROT_NONE (Z.lor MAP_ANONYMOUS MAP_PRIVATE), MAP_FAILED)] |}).
Proof.
  apply (fsalloc_mmap_failure env0 st_one 0); [lia | reflexivity].
Defined.

Lemma fsfree_known_eq (env : Env) (s : State) (addr : Z) (info : Info)
  (Hin : gAllocations s !! addr = Some info) :
  let e := answer env (trace s) (DbDel (rid info)) in
  let len := sizealign (kPagesize env) (size info) in
  let r := answer env (trace s ++ [(DbDel (rid info), e)]) (Munmap addr len) in
  fsfree env addr s =
  if negb (e =? 0) && negb (e =? DB_NOTFOUND) then
    (Throw "Getting from database failed",
     set_trace (trace s ++ [(DbDel (rid info), e)]) s)
  else if r <? 0 then
    (Throw "fsalloc: munmap failed",
     set_trace (trace s ++ [(DbDel (rid info), e); (Munmap addr len, r)]) s)
  else
    (Ret tt,
     {| gAllocations := delete addr (gAllocations s);
        gRegionCache := gRegionCache s;
        gRegionCacheCapacity := gRegionCacheCapacity s;
        gStats := incr_frees (gStats s);
        trace := trace s ++ [(DbDel (rid info), e); (Munmap addr len, r)] |}).
Proof.
  intros e len r.
  destruct s as [tbl queue cap st tr]. cbn in Hin.
  unfold fsfree, bind, allocated, get_state, ret. cbn. rewrite Hin.
  subst e len r. cbn [trace].
  unfold db.del, bind, call. cbn.
  destruct (negb (answer env tr (DbDel (rid info)) =? 0)
            && negb (answer env tr (DbDel (rid info)) =? DB_NOTFOUND));
    cbn; [reflexivity |].
  match goal with |- context [when ?b _ _] => destruct b end; cbn.
  - unfold set_trace. cbn. rewrite <- app_assoc. reflexivity.
  - rewrite <- app_assoc. reflexivity.
Qed.

(** X5: [fsfree] of an address that has an entry deletes the record of its
    key from the store (also when the region was never stored, with the
    invalid key), unmaps the aligned size, erases the entry and counts the
    free; the queue is left as it is, so a queued address stays queued.  A
    store error other than [DB_NOTFOUND] stops it before the unmapping; a
    failed [munmap] stops it after the record is deleted, with the entry
    kept and [frees] not counted. *)
Theorem fsfree_known (env : Env) (s : State) (addr : Z) (info : Info)
  (Hin : gAllocations s !! addr = Some info) :
  let e := answer env (trace s) (DbDel (rid info)) in
  let len := sizealign (kPagesize env) (size info) in
  let r := answer env (trace s ++ [(DbDel (rid info), e)]) (Munmap addr len) in
  fsfree env addr s =
  if negb (e =? 0) && negb (e =? DB_NOTFOUND) then
    (Throw "Getting from database failed",
     set_trace (trace s ++ [(DbDel (rid info), e)]) s)
  else if r <? 0 then
    (Throw "fsalloc: munmap failed",
     set_trace (trace s ++ [(DbDel (rid info), e); (Munmap addr len, r)]) s)
  else
    (Ret tt,
     {| gAllocations := delete addr (gAllocations s);
        gRegionCache := gRegionCache s;
        gRegionCacheCapacity := gRegionCacheCapacity s;
        gStats := incr_frees (gStats s);
        trace := trace s ++ [(DbDel (rid info), e); (Munmap addr len, r)] |}).
Proof. exact (fsfree_known_eq env s addr info Hin). Qed.

Lemma fsfree_known_witness :
  fsfree env0 65536 st_one =
  (Ret tt,
   {| gAllocations := ∅;
      gRegionCache := [65536];
      gRegionCacheCapacity := 4;
      gStats := {| allocs := 1; frees := 1; cache_hits := 0; writebacks := 0 |};
      trace := trace st_one ++
        [(DbDel invalid_handle, 0); (Munmap 65536 4096, 0)] |}).
Proof.
  apply (fsfree_known env0 st_one 65536 (emptyInfo 4)). reflexivity.
Defined.

(** the entry of the new region when [fsalloc] returns: never stored, of
    the size requested, clean *)
Lemma fsalloc_entry (env : Env) (s : State) (size addr : Z)
  (Hrel : reliable env)
  (Hsize : 0 <= size < 2 ^ 32)
  (Hmmap : answer env (trace s)
             (Mmap size PROT_NONE (Z.lor MAP_ANONYMOUS MAP_PRIVATE)) = addr)
  (Hok : addr <> MAP_FAILED) :
  exists s' c,
    fsalloc env size s = (Ret addr, s') /\
    gAllocations s' !! addr = Some (set_cached c (emptyInfo size)) /\
    gRegionCache s'
    = (if Z.of_nat (length (gRegionCache s ++ [addr])) >? gRegionCacheCapacity s
       then tail (gRegionCache s ++ [addr]) else gRegionCache s ++ [addr]) /\
    gRegionCacheCapacity s' = gRegionCacheCapacity s /\
    allocs (gStats s') = to_uint64 (allocs (gStats s) + 1) /\
    frees (gStats s') = frees (gStats s).
Proof.
  destruct (fsalloc_ok env s size addr Hrel Hsize Hmmap Hok) as [s2 [Hf He]].
  destruct (Z.of_nat (length (gRegionCache s ++ [addr])) >? gRegionCacheCapacity s).
  - destruct He as [Hw (Hq & Hc & Ha & Hfr & _ & Htbl & _)].
    destruct (Z.eq_dec (hd addr (gRegionCache s)) addr) as [Hhd | Hne].
    + assert (El : gRegionCache (admitted size addr s)
                   = addr :: tail (gRegionCache s ++ [addr])).
      { cbn. destruct (gRegionCache s); cbn in *; congruence. }
      pose proof (writeback_head_present env (admitted size addr s) addr _
                    (emptyInfo size) Hrel El (lookup_insert_eq _ _ _)) as Hw'.
      cbv zeta in Hw'. rewrite Hw in Hw'. injection Hw' as ->.
      eexists _, false. split; [exact Hf |]. cbn.
      split; [apply lookup_insert_eq |]. repeat split; reflexivity.
    + eexists _, true. split; [exact Hf |]. cbn.
      split; [rewrite Htbl by congruence; apply lookup_insert_eq |].
      split; [exact Hq |]. split; [exact Hc |].
      split; [rewrite Ha; reflexivity | exact Hfr].
  - subst s2. eexists _, true. split; [exact Hf |]. cbn.
    split; [apply lookup_insert_eq |]. repeat split; reflexivity.
Qed.

(** X6: an allocation that is freed at once leaves no entry for its
    address, and [allocs] and [frees] have both grown by one; the store was
    asked to delete the invalid key and the aligned size was unmapped.  The
    address is still queued unless the allocation evicted it. *)
Theorem alloc_then_free (env : Env) (s : State) (size addr : Z)
  (Hrel : reliable env)
  (Hsize : 0 < size < 2 ^ 32)
  (Hmmap : answer env (trace s)
             (Mmap size PROT_NONE (Z.lor MAP_ANONYMOUS MAP_PRIVATE)) = addr)
  (Hok : addr <> MAP_FAILED) :
  exists s1 s',
    fsalloc env size s = (Ret addr, s1) /\
    (a <- fsalloc env size; fsfree env a) s = (Ret tt, s') /\
    gAllocations s' = delete addr (gAllocations s1) /\
    gAllocations s' !! addr = None /\
    allocs (gStats s') = to_uint64 (allocs (gStats s) + 1) /\
    frees (gStats s') = to_uint64 (frees (gStats s) + 1) /\
    trace s' = trace s1 ++
      [(DbDel invalid_handle, 0);
       (Munmap addr (sizealign (kPagesize env) size), 0)] /\
    gRegionCache s' = gRegionCache s1 /\
    (Z.of_nat (length (gRegionCache s)) + 1 <= gRegionCacheCapacity s ->
     gRegionCache s' = gRegionCache s ++ [addr]).
Proof.
  destruct (fsalloc_entry env s size addr Hrel ltac:(lia) Hmmap Hok)
    as (s1 & c & Hf & Htbl & Hq & Hc & Ha & Hfr).
  pose proof (fsfree_known_eq env s1 addr _ Htbl) as Hfree. cbv zeta in Hfree.
  cbn in Hfree. rewrite (Hrel _ (DbDel _) eq_refl) in Hfree. cbn in Hfree.
  rewrite (Hrel _ (Munmap _ _) eq_refl) in Hfree. cbn in Hfree.
  eexists s1, _. split; [exact Hf |].
  split; [rewrite (bind_ret_eq _ _ _ _ _ Hf); exact Hfree |]. cbn.
  split; [reflexivity |]. split; [apply lookup_delete_eq |].
  split; [exact Ha |]. split; [rewrite Hfr; reflexivity |].
  split; [reflexivity |]. split; [reflexivity |].
  intros Hroom. rewrite Hq.
  replace (Z.of_nat (length (gRegionCache s ++ [addr])) >? gRegionCacheCapacity s)
    with false; [reflexivity |].
  symmetry. rewrite Z.gtb_ltb. apply Z.ltb_ge.
  rewrite length_app. cbn [length]. lia.
Qed.

Lemma alloc_then_free_witness :
  exists s',
    (a <- fsalloc env0 4; fsfree env0 a) (fresh 4) = (Ret tt, s') /\
    gAllocations s' !! 65536 = None /\
    allocs (gStats s') = 1 /\ frees (gStats s') = 1 /\
    gRegionCache s' = [65536].
Proof.
  destruct (alloc_then_free env0 (fresh 4) 4 65536 env0_reliable)
    as (s1 & s' & _ & Hr & _ & Hnone & Ha & Hf & _ & _ & Hq);
    [lia | reflexivity | discriminate |].
  exists s'. split; [exact Hr |]. split; [exact Hnone |].
  split; [exact Ha |]. split; [exact Hf |]. apply Hq. cbn. lia.
Defined.

(** ** Bringing a region in *)

(** the handler from "Filling with contents from db" on, when the queue has
    room for the region *)
Lemma handler_fill_ok (env : Env) (s : State) (region flags : Z) (info : Info)
  (Hrel : reliable env)
  (Hin : gAllocations s !! region = Some info)
  (Hroom : Z.of_nat (length (gRegionCache s)) + 1 <= gRegionCacheCapacity s) :
  handler_fill env region flags s =
  (Ret tt,
   {| gAllocations := <[region := set_cached true info]> (gAllocations s);
      gRegionCache := gRegionCache s ++ [region];
      gRegionCacheCapacity := gRegionCacheCapacity s;
      gStats := gStats s;
      trace := trace s ++ load_calls env (trace s) region info ++
        [(Mprotect region (sizealign (kPagesize env) (size info)) flags, 0)] |}).
Proof.
  destruct s as [tbl queue cap st tr]. cbn in Hin, Hroom.
  assert (Hover : (Z.of_nat (length (queue ++ [region])) >? cap) = false).
  { rewrite Z.gtb_ltb. apply Z.ltb_ge. rewrite length_app. cbn [length]. lia. }
  unfold handler_fill, load_calls, bind, deref, update, modify, get_state, ret.
  cbn. rewrite Hin. cbn.
  destruct (valid info); cbn.
  - rewrite protect_ok by assumption. cbn.
    rewrite db_get_ok by assumption. cbn.
    rewrite call_ok by (assumption || reflexivity). cbn.
    unfold cacheRegion, bind, push_back, modify, get_state. cbn.
    rewrite Hover. cbn. rewrite protect_ok by assumption. cbn.
    rewrite (alter_lookup_insert _ _ _ _ Hin).
    repeat rewrite <- app_assoc. reflexivity.
  - unfold cacheRegion, bind, push_back, modify, get_state. cbn.
    rewrite Hover. cbn. rewrite protect_ok by assumption. cbn.
    rewrite (alter_lookup_insert _ _ _ _ Hin). reflexivity.
Qed.

Lemma handler_read_eq (env : Env) (s : State) (sig va : Z)
  (ctx : ucontext_t) (info : Info)
  (Hrel : reliable env)
  (HP : is_pagesize (kPagesize env))
  (Hva : 0 <= va < 2 ^ 64)
  (Hin : gAllocations s !! pagealign (kPagesize env) va = Some info)
  (Hreg : va - pagealign (kPagesize env) va <= size info)
  (Hr : Z.testbit (nth REG_ERR (gregs (uc_mcontext ctx)) 0) 1 = false)
  (Hroom : Z.of_nat (length (gRegionCache s)) + 1 <= gRegionCacheCapacity s) :
  let region := pagealign (kPagesize env) va in
  handler env sig va ctx s =
  (Ret tt,
   {| gAllocations :=
        <[region := {| rid := rid info; size := size info;
                       dirty := dirty info; cached := true |}]> (gAllocations s);
      gRegionCache := gRegionCache s ++ [region];
      gRegionCacheCapacity := gRegionCacheCapacity s;
      gStats := gStats s;
      trace := trace s ++ load_calls env (trace s) region info ++
        [(Mprotect region (sizealign (kPagesize env) (size info)) PROT_READ, 0)] |}).
Proof.
  intros region.
  destruct (pagealign_bounds _ _ HP Hva) as [Hoff _].
  pose proof (is_pagesize_bounds _ HP) as Hb.
  unfold handler. fold region in Hin, Hoff, Hreg |- *.
  erewrite (bind_ret_eq (allocated region))
    by (unfold allocated, bind, get_state, ret; cbn; reflexivity).
  rewrite Hin. rewrite verify_offset by lia.
  replace (va - region <=? size info) with true by (symmetry; apply Z.leb_le; lia).
  erewrite (bind_ret_eq (when (negb true) _)) by reflexivity.
  rewrite get_mprotect_flags_bit, Hr.
  change (negb (Z.land PROT_READ PROT_WRITE =? 0)) with false. cbv iota.
  exact (handler_fill_ok env s region PROT_READ info Hrel Hin Hroom).
Qed.

(** X7: a read fault inside a region, with room in the queue: the region is
    loaded from the store exactly when it has a key ([mprotect] READ|WRITE,
    [DB->get] of its key, [memcpy] of [size] bytes), marked cached, appended
    to the queue and protected READ; [dirty], the capacity and the
    statistics are untouched.  The handler does not look whether the region
    is queued already: a resident region gets a second place in the
    queue. *)
Theorem handler_read_fault (env : Env) (s : State) (sig va : Z)
  (ctx : ucontext_t) (info : Info)
  (Hrel : reliable env)
  (HP : is_pagesize (kPagesize env))
  (Hva : 0 <= va < 2 ^ 64)
  (Hin : gAllocations s !! pagealign (kPagesize env) va = Some info)
  (Hreg : va - pagealign (kPagesize env) va <= size info)
  (Hr : Z.testbit (nth REG_ERR (gregs (uc_mcontext ctx)) 0) 1 = false)
  (Hroom : Z.of_nat (length (gRegionCache s)) + 1 <= gRegionCacheCapacity s) :
  let region := pagealign (kPagesize env) va in
  handler env sig va ctx s =
  (Ret tt,
   {| gAllocations :=
        <[region := {| rid := rid info; size := size info;
                       dirty := dirty info; cached := true |}]> (gAllocations s);
      gRegionCache := gRegionCache s ++ [region];
      gRegionCacheCapacity := gRegionCacheCapacity s;
      gStats := gStats s;
      trace := trace s ++ load_calls env (trace s) region info ++
        [(Mprotect region (sizealign (kPagesize env) (size info)) PROT_READ, 0)] |}).
Proof.
  exact (handler_read_eq env s sig va ctx info Hrel HP Hva Hin Hreg Hr Hroom).
Qed.

Lemma handler_read_fault_witness :
  handler env0 SIGSEGV 65537 (ctx_err 4) st_evicted =
  (Ret tt,
   {| gAllocations :=
        {[ 65536 := {| rid := {| pgno := 2; indx := 0 |}; size := 4;
                       dirty := false; cached := true |} ]};
      gRegionCache := [65536];
      gRegionCacheCapacity := 4;
      gStats := gStats st_evicted;
      trace := [(Mprotect 65536 4096 (Z.lor PROT_READ PROT_WRITE), 0);
                (DbGet {| pgno := 2; indx := 0 |}, 0);
                (Memcpy 65536 4096 4, 0);
                (Mprotect 65536 4096 PROT_READ, 0)] |}).
Proof.
  apply (handler_read_fault env0 st_evicted SIGSEGV 65537 (ctx_err 4)
           {| rid := {| pgno := 2; indx := 0 |}; size := 4;
              dirty := false; cached := false |}
           env0_reliable env0_pagesize);
    solve [reflexivity | vm_compute; split; [discriminate | reflexivity]
          | vm_compute; discriminate].
Defined.

Lemma handler_write_miss_eq (env : Env) (s : State) (sig va : Z)
  (ctx : ucontext_t) (info : Info)
  (Hrel : reliable env)
  (HP : is_pagesize (kPagesize env))
  (Hva : 0 <= va < 2 ^ 64)
  (Hin : gAllocations s !! pagealign (kPagesize env) va = Some info)
  (Hreg : va - pagealign (kPagesize env) va <= size info)
  (Hmiss : cached info = false)
  (Hw : Z.testbit (nth REG_ERR (gregs (uc_mcontext ctx)) 0) 1 = true)
  (Hroom : Z.of_nat (length (gRegionCache s)) + 1 <= gRegionCacheCapacity s) :
  let region := pagealign (kPagesize env) va in
  handler env sig va ctx s =
  (Ret tt,
   {| gAllocations :=
        <[region := {| rid := rid info; size := size info;
                       dirty := true; cached := true |}]> (gAllocations s);
      gRegionCache := gRegionCache s ++ [region];
      gRegionCacheCapacity := gRegionCacheCapacity s;
      gStats := gStats s;
      trace := trace s ++ load_calls env (trace s) region info ++
        [(Mprotect region (sizealign (kPagesize env) (size info))
            (Z.lor PROT_READ PROT_WRITE), 0)] |}).
Proof.
  intros region.
  destruct (pagealign_bounds _ _ HP Hva) as [Hoff _].
  pose proof (is_pagesize_bounds _ HP) as Hb.
  unfold handler. fold region in Hin, Hoff, Hreg |- *.
  erewrite (bind_ret_eq (allocated region))
    by (unfold allocated, bind, get_state, ret; cbn; reflexivity).
  rewrite Hin. rewrite verify_offset by lia.
  replace (va - region <=? size info) with true by (symmetry; apply Z.leb_le; lia).
  erewrite (bind_ret_eq (when (negb true) _)) by reflexivity.
  rewrite get_mprotect_flags_bit, Hw.
  change (negb (Z.land (Z.lor PROT_READ PROT_WRITE) PROT_WRITE =? 0)) with true.
  cbv iota. rewrite Hmiss.
  erewrite (bind_ret_eq (update region (set_dirty true))) by reflexivity.
  rewrite (handler_fill_ok env _ region (Z.lor PROT_READ PROT_WRITE)
             (set_dirty true info) Hrel);
    [| cbn; rewrite (alter_lookup_insert _ _ _ _ Hin); apply lookup_insert_eq
     | exact Hroom ].
  cbn. rewrite (alter_lookup_insert _ _ _ _ Hin), insert_insert_eq.
  reflexivity.
Qed.

(** X8: a write fault inside a region that is not resident, with room in
    the queue: the region is marked dirty, loaded from the store exactly
    when it has a key, marked cached, appended to the queue and protected
    READ|WRITE; the statistics are untouched. *)
Theorem handler_write_miss (env : Env) (s : State) (sig va : Z)
  (ctx : ucontext_t) (info : Info)
  (Hrel : reliable env)
  (HP : is_pagesize (kPagesize env))
  (Hva : 0 <= va < 2 ^ 64)
  (Hin : gAllocations s !! pagealign (kPagesize env) va = Some info)
  (Hreg : va - pagealign (kPagesize env) va <= size info)
  (Hmiss : cached info = false)
  (Hw : Z.testbit (nth REG_ERR (gregs (uc_mcontext ctx)) 0) 1 = true)
  (Hroom : Z.of_nat (length (gRegionCache s)) + 1 <= gRegionCacheCapacity s) :
  let region := pagealign (kPagesize env) va in
  handler env sig va ctx s =
  (Ret tt,
   {| gAllocations :=
        <[region := {| rid := rid info; size := size info;
                       dirty := true; cached := true |}]> (gAllocations s);
      gRegionCache := gRegionCache s ++ [region];
      gRegionCacheCapacity := gRegionCacheCapacity s;
      gStats := gStats s;
      trace := trace s ++ load_calls env (trace s) region info ++
        [(Mprotect region (sizealign (kPagesize env) (size info))
            (Z.lor PROT_READ PROT_WRITE), 0)] |}).
Proof.
  exact (handler_write_miss_eq env s sig va ctx info Hrel HP Hva Hin Hreg Hmiss Hw Hroom).
Qed.

Lemma handler_write_miss_witness :
  handler env0 SIGSEGV 65537 (ctx_err 7) st_evicted =
  (Ret tt,
   {| gAllocations :=
        {[ 65536 := {| rid := {| pgno := 2; indx := 0 |}; size := 4;
                       dirty := true; cached := true |} ]};
      gRegionCache := [65536];
      gRegionCacheCapacity := 4;
      gStats := gStats st_evicted;
      trace := [(Mprotect 65536 4096 (Z.lor PROT_READ PROT_WRITE), 0);
                (DbGet {| pgno := 2; indx := 0 |}, 0);
                (Memcpy 65536 4096 4, 0);
                (Mprotect 65536 4096 (Z.lor PROT_READ PROT_WRITE), 0)] |}).
Proof.
  apply (handler_write_miss env0 st_evicted SIGSEGV 65537 (ctx_err 7)
           {| rid := {| pgno := 2; indx := 0 |}; size := 4;
              dirty := false; cached := false |}
           env0_reliable env0_pagesize);
    solve [reflexivity | vm_compute; split; [discriminate | reflexivity]
          | vm_compute; discriminate].
Defined.

(** ** Eviction and return *)

(** X9: a dirty region without a key is evicted and then read again.  The
    write-back appends its [size] bytes to the store and keeps the key the
    store returns; if that key is not the invalid one, the read fault loads
    [size] bytes from that same key.  After both the region is clean,
    cached, at the tail of the queue, and only [writebacks] has grown. *)
Theorem evict_then_read (env : Env) (s : State) (sig va a : Z) (q : list Z)
  (ctx : ucontext_t) (info : Info)
  (Hrel : reliable env)
  (HP : is_pagesize (kPagesize env))
  (Hq : gRegionCache s = a :: q)
  (Hin : gAllocations s !! a = Some info)
  (Hdirty : dirty info = true)
  (Hnokey : valid info = false)
  (Hva : 0 <= va < 2 ^ 64)
  (Hpage : pagealign (kPagesize env) va = a)
  (Hreg : va - a <= size info)
  (Hr : Z.testbit (nth REG_ERR (gregs (uc_mcontext ctx)) 0) 1 = false)
  (Hroom : Z.of_nat (length q) + 1 <= gRegionCacheCapacity s)
  (Hkey : valid (set_rid
                   (append_rid env
                      (trace s ++
                       [(Mprotect a (sizealign (kPagesize env) (size info))
                           PROT_READ, 0)])) info) = true) :
  let len := sizealign (kPagesize env) (size info) in
  let stored :=
    [(Mprotect a len PROT_READ, 0); (DbPutAppend a (size info), 0);
     (Madvise a len MADV_DONTNEED, 0); (Mprotect a len PROT_NONE, 0)] in
  let key := append_rid env (trace s ++ [(Mprotect a len PROT_READ, 0)]) in
  let data :=
    get_data env
      (trace s ++ stored ++ [(Mprotect a len (Z.lor PROT_READ PROT_WRITE), 0)]) in
  (writeback env;; handler env sig va ctx) s =
  (Ret tt,
   {| gAllocations :=
        <[a := {| rid := key; size := size info; dirty := false; cached := true |}]>
          (gAllocations s);
      gRegionCache := q ++ [a];
      gRegionCacheCapacity := gRegionCacheCapacity s;
      gStats := incr_writebacks (gStats s);
      trace := trace s ++ stored ++
        [(Mprotect a len (Z.lor PROT_READ PROT_WRITE), 0);
         (DbGet key, 0);
         (Memcpy a data (size info), 0);
         (Mprotect a len PROT_READ, 0)] |}).
Proof.
  intros len stored key data.
  set (info' := {| rid := key; size := size info; dirty := false; cached := false |}).
  pose proof (writeback_head_present env s a q info Hrel Hq Hin) as Hw.
  cbv zeta in Hw. rewrite Hdirty, Hnokey in Hw. cbn [negb] in Hw.
  rewrite (bind_ret_eq _ _ _ _ _ Hw).
  match goal with |- handler _ _ _ _ ?s1 = _ =>
    pose proof (handler_read_eq env s1 sig va ctx info' Hrel HP Hva) as Hh
  end.
  rewrite Hpage in Hh. cbn [gAllocations gRegionCache gRegionCacheCapacity size] in Hh.
  specialize (Hh (lookup_insert_eq _ _ _) Hreg Hr Hroom). cbv zeta in Hh.
  rewrite Hh. unfold load_calls.
  change (valid info') with (valid (set_rid key info)). unfold key, len.
  rewrite Hkey. cbn. rewrite insert_insert_eq.
  repeat rewrite <- app_assoc. reflexivity.
Qed.

Lemma evict_then_read_witness :
  (writeback env0;; handler env0 SIGSEGV 65537 (ctx_err 4)) st_dirty =
  (Ret tt,
   {| gAllocations :=
        {[ 65536 := {| rid := {| pgno := 2; indx := 0 |}; size := 4;
                       dirty := false; cached := true |} ]};
      gRegionCache := [65536];
      gRegionCacheCapacity := 1;
      gStats := {| allocs := 1; frees := 0; cache_hits := 0; writebacks := 1 |};
      trace := [(Mprotect 65536 4096 PROT_READ, 0);
                (DbPutAppend 65536 4, 0);
                (Madvise 65536 4096 MADV_DONTNEED, 0);
                (Mprotect 65536 4096 PROT_NONE, 0);
                (Mprotect 65536 4096 (Z.lor PROT_READ PROT_WRITE), 0);
                (DbGet {| pgno := 2; indx := 0 |}, 0);
                (Memcpy 65536 4096 4, 0);
                (Mprotect 65536 4096 PROT_READ, 0)] |}).
Proof.
  apply (evict_then_read env0 st_dirty SIGSEGV 65537 65536 [] (ctx_err 4)
           info_dirty env0_reliable env0_pagesize);
    solve [reflexivity | vm_compute; split; [discriminate | reflexivity]
          | vm_compute; discriminate].
Defined.

(** X10: a region that is read before it is written.  [fsalloc] queues the
    new address, and the read fault, which finds the region resident and
    without a key, queues it once more: with room for both, the queue ends
    with two copies of the address, and one region takes two places of the
    capacity. *)
Theorem alloc_then_read (env : Env) (s : State) (size addr off : Z)
  (ctx : ucontext_t)
  (Hrel : reliable env)
  (HP : is_pagesize (kPagesize env))
  (Hsize : 0 < size < 2 ^ 32)
  (Hmmap : answer env (trace s)
             (Mmap size PROT_NONE (Z.lor MAP_ANONYMOUS MAP_PRIVATE)) = addr)
  (Hok : addr <> MAP_FAILED)
  (Haddr : 0 <= addr /\ addr + size <= 2 ^ 64 /\ addr mod kPagesize env = 0)
  (Hoff : 0 <= off < size /\ off < kPagesize env)
  (Hr : Z.testbit (nth REG_ERR (gregs (uc_mcontext ctx)) 0) 1 = false)
  (Hroom : Z.of_nat (length (gRegionCache s)) + 2 <= gRegionCacheCapacity s) :
  exists s',
    (a <- fsalloc env size; handler env SIGSEGV (a + off) ctx) s = (Ret tt, s') /\
    gRegionCache s' = gRegionCache s ++ [addr; addr] /\
    gAllocations s' !! addr = Some (emptyInfo size) /\
    gStats s' = incr_allocs (gStats s) /\
    trace s' = trace s ++
      [(Mmap size PROT_NONE (Z.lor MAP_ANONYMOUS MAP_PRIVATE), addr);
       (Mprotect addr (sizealign (kPagesize env) size) PROT_READ, 0)].
Proof.
  destruct Haddr as (Ha0 & Hend & Hal). destruct Hoff as (Hoff & HoffP).
  destruct (fsalloc_ok env s size addr Hrel ltac:(lia) Hmmap Hok) as [s2 [Hf He]].
  replace (Z.of_nat (length (gRegionCache s ++ [addr])) >? gRegionCacheCapacity s)
    with false in He.
  2:{ symmetry. rewrite Z.gtb_ltb. apply Z.ltb_ge.
      rewrite length_app. cbn [length]. lia. }
  subst s2. rewrite (bind_ret_eq _ _ _ _ _ Hf).
  assert (Hpa : pagealign (kPagesize env) (addr + off) = addr).
  { apply pagealign_base; try assumption; lia. }
  match goal with |- context [handler _ _ _ _ ?s1] =>
    pose proof (handler_read_eq env s1 SIGSEGV (addr + off) ctx (emptyInfo size)
                  Hrel HP ltac:(lia)) as Hh
  end.
  rewrite Hpa in Hh.
  cbn [gAllocations gRegionCache gRegionCacheCapacity set_gStats admitted] in Hh.
  specialize (Hh (lookup_insert_eq _ _ _) ltac:(cbn; lia) Hr).
  specialize (Hh ltac:(rewrite length_app; cbn [length]; lia)).
  cbv zeta in Hh. eexists. split; [exact Hh |]. cbn.
  split; [rewrite <- app_assoc; reflexivity |].
  split; [rewrite insert_insert_eq; apply lookup_insert_eq |].
  split; [reflexivity |].
  rewrite <- app_assoc. reflexivity.
Qed.

Lemma alloc_then_read_witness :
  exists s',
    (a <- fsalloc env0 4; handler env0 SIGSEGV (a + 0) (ctx_err 4)) (fresh 4)
    = (Ret tt, s') /\
    gRegionCache s' = [65536; 65536].
Proof.
  destruct (alloc_then_read env0 (fresh 4) 4 65536 0 (ctx_err 4)
              env0_reliable env0_pagesize)
    as (s' & Hrun & Hq & _);
    try solve [reflexivity | lia | discriminate
              | vm_compute; repeat split; discriminate || reflexivity].
  exists s'. split; [exact Hrun | exact Hq].
Defined.

(** ** Write-back when the store fails *)

(** X11: when the store refuses the new record of a dirty region without a
    key, [writeback] throws "Putting to database failed".  By then the
    region is out of the queue and marked not cached, it is still dirty and
    without a key, its protection was set to READ and not back to NONE, it
    was not discarded, and no counter has moved. *)
Theorem writeback_put_failure (env : Env) (s : State) (a e : Z) (q : list Z)
  (info : Info)
  (Hq : gRegionCache s = a :: q)
  (Hin : gAllocations s !! a = Some info)
  (Hdirty : dirty info = true)
  (Hnokey : valid info = false)
  (Hprot : answer env (trace s)
             (Mprotect a (sizealign (kPagesize env) (size info)) PROT_READ) = 0)
  (Hput : answer env
            (trace s ++
             [(Mprotect a (sizealign (kPagesize env) (size info)) PROT_READ, 0)])
            (DbPutAppend a (size info)) = e)
  (He : e <> 0) :
  writeback env s =
  (Throw "Putting to database failed",
   {| gAllocations :=
        <[a := {| rid := rid info; size := size info;
                  dirty := true; cached := false |}]> (gAllocations s);
      gRegionCache := q;
      gRegionCacheCapacity := gRegionCacheCapacity s;
      gStats := gStats s;
      trace := trace s ++
        [(Mprotect a (sizealign (kPagesize env) (size info)) PROT_READ, 0);
         (DbPutAppend a (size info), e)] |}).
Proof.
  destruct s as [tbl queue cap st tr]. cbn in Hq, Hin, Hprot, Hput. subst queue.
  assert (Hpos : (0 <? Z.of_nat (length (a :: q))) = true).
  { apply Z.ltb_lt. cbn [length]. lia. }
  assert (Hne : (e =? 0) = false) by (apply Z.eqb_neq; exact He).
  unfold writeback, bind, get_state, index, pop_front, update, deref, modify, count, ret.
  cbn. cbn in Hpos. rewrite Hpos. cbn. rewrite Hin. cbn.
  rewrite (alter_lookup_insert _ _ _ _ Hin), lookup_insert_eq. cbn.
  change (valid (set_cached false info)) with (valid info).
  rewrite Hdirty, Hnokey. cbn.
  unfold protect, db.put, bind, call, get_state. cbn.
  rewrite Hprot. cbn. rewrite Hput, Hne. cbn.
  unfold set_trace, set_gAllocations, set_gRegionCache, set_cached. cbn.
  rewrite Hdirty, <- app_assoc. reflexivity.
Qed.

Lemma writeback_put_failure_witness :
  writeback env_full st_dirty =
  (Throw "Putting to database failed",
   {| gAllocations :=
        {[ 65536 := {| rid := invalid_handle; size := 4;
                       dirty := true; cached := false |} ]};
      gRegionCache := [];
      gRegionCacheCapacity := 1;
      gStats := gStats st_dirty;
      trace := [(Mprotect 65536 4096 PROT_READ, 0); (DbPutAppend 65536 4, 28)] |}).
Proof.
  apply (writeback_put_failure env_full st_dirty 65536 28 [] info_dirty);
    solve [reflexivity | discriminate].
Defined.

(** X12: when the store refuses to overwrite the record of a dirty region
    that has a key, [writeback] throws "Commiting changes to database entry
    failed" with the cursor it opened left open: no [close] is called.  The
    region is out of the queue and marked not cached, still dirty, under its
    old key, readable and not discarded; no counter has moved. *)
Theorem writeback_overwrite_failure (env : Env) (s : State) (a e : Z)
  (q : list Z) (info : Info)
  (Hq : gRegionCache s = a :: q)
  (Hin : gAllocations s !! a = Some info)
  (Hdirty : dirty info = true)
  (Hkey : valid info = true)
  (Hprot : answer env (trace s)
             (Mprotect a (sizealign (kPagesize env) (size info)) PROT_READ) = 0)
  (Hcur : answer env
            (trace s ++
             [(Mprotect a (sizealign (kPagesize env) (size info)) PROT_READ, 0)])
            DbCursor = 0)
  (Hget : answer env
            (trace s ++
             [(Mprotect a (sizealign (kPagesize env) (size info)) PROT_READ, 0);
              (DbCursor, 0)])
            (DbcGet (rid info)) = 0)
  (Hput : answer env
            (trace s ++
             [(Mprotect a (sizealign (kPagesize env) (size info)) PROT_READ, 0);
              (DbCursor, 0); (DbcGet (rid info), 0)])
            (DbcPut a (size info)) = e)
  (He : e <> 0) :
  writeback env s =
  (Throw "Commiting changes to database entry failed",
   {| gAllocations :=
        <[a := {| rid := rid info; size := size info;
                  dirty := true; cached := false |}]> (gAllocations s);
      gRegionCache := q;
      gRegionCacheCapacity := gRegionCacheCapacity s;
      gStats := gStats s;
      trace := trace s ++
        [(Mprotect a (sizealign (kPagesize env) (size info)) PROT_READ, 0);
         (DbCursor, 0); (DbcGet (rid info), 0);
         (DbcPut a (size info), e)] |}).
Proof.
  destruct s as [tbl queue cap st tr].
  cbn in Hq, Hin, Hprot, Hcur, Hget, Hput. subst queue.
  assert (Hpos : (0 <? Z.of_nat (length (a :: q))) = true).
  { apply Z.ltb_lt. cbn [length]. lia. }
  assert (Hne : (e =? 0) = false) by (apply Z.eqb_neq; exact He).
  unfold writeback, bind, get_state, index, pop_front, update, deref, modify, count, ret.
  cbn. cbn in Hpos. rewrite Hpos. cbn. rewrite Hin. cbn.
  rewrite (alter_lookup_insert _ _ _ _ Hin), lookup_insert_eq. cbn.
  change (valid (set_cached false info)) with (valid info).
  rewrite Hdirty, Hkey. cbn.
  assert (Hget' :
    answer env
      ((tr ++ [(Mprotect a (sizealign (kPagesize env) (size info)) PROT_READ, 0)])
       ++ [(DbCursor, 0)]) (DbcGet (rid info)) = 0)
    by (rewrite <- app_assoc; exact Hget).
  assert (Hput' :
    answer env
      (((tr ++ [(Mprotect a (sizealign (kPagesize env) (size info)) PROT_READ, 0)])
        ++ [(DbCursor, 0)]) ++ [(DbcGet (rid info), 0)])
      (DbcPut a (size info)) = e)
    by (rewrite <- !app_assoc; exact Hput).
  unfold protect, db.put_rid, bind, call. cbn.
  rewrite Hprot. cbn. rewrite Hcur. cbn.
  rewrite Hget'. cbn. rewrite Hput', Hne. cbn.
  unfold set_trace, set_gAllocations, set_gRegionCache, set_cached. cbn.
  rewrite Hdirty, <- !app_assoc. reflexivity.
Qed.

Lemma writeback_overwrite_failure_witness :
  writeback env_full st_rewritten =
  (Throw "Commiting changes to database entry failed",
   {| gAllocations :=
        {[ 65536 := {| rid := {| pgno := 2; indx := 0 |}; size := 4;
                       dirty := true; cached := false |} ]};
      gRegionCache := [];
      gRegionCacheCapacity := 1;
      gStats := zeroStats;
      trace := [(Mprotect 65536 4096 PROT_READ, 0); (DbCursor, 0);
                (DbcGet {| pgno := 2; indx := 0 |}, 0);
                (DbcPut 65536 4, 28)] |}).
Proof.
  apply (writeback_overwrite_failure env_full st_rewritten 65536 28 []
           {| rid := {| pgno := 2; indx := 0 |}; size := 4;
              dirty := true; cached := true |});
    solve [reflexivity | discriminate].
Defined.

(** ** What paging and freeing leave alone *)

Section Frames.

Variable env : Env.
Variable R : State -> State -> Prop.
Hypothesis R_refl : forall s, R s s.
Hypothesis R_trans : forall s1 s2 s3, R s1 s2 -> R s2 s3 -> R s1 s3.
Hypothesis R_trace : forall s evs, R s (set_trace (trace s ++ evs) s).

Ltac frame :=
  pose proof (stable_call env R R_trace);
  pose proof (stable_protect env R R_refl R_trans R_trace);
  pose proof (stable_forget env R R_refl R_trans R_trace);
  pose proof (stable_db_get env R R_refl R_trans R_trace);
  pose proof (stable_db_put env R R_refl R_trans R_trace);
  pose proof (stable_db_put_rid env R R_refl R_trans R_trace);
  pose proof (stable_db_del env R R_refl R_trans R_trace);
  pose proof (stable_default_sigsegv env R R_refl R_trans R_trace);
  pose proof (stable_deref R R_refl);
  pose proof (stable_allocated R R_refl);
  repeat first
    [ assumption
    | match goal with H : forall _, _ |- stable _ _ => solve [apply H] end
    | apply (stable_ret R R_refl) | apply (stable_get_state R R_refl)
    | apply (stable_throw R R_refl) | apply (stable_abort R R_refl)
    | apply (stable_assert R R_refl)
    | apply (stable_when R R_refl) | apply stable_if
    | apply (stable_bind R R_trans); [| intros ?] ].

(** *** the paging engine: [writeback], [cacheRegion], [handler] *)

Hypothesis R_index : forall a, stable R (index a).
Hypothesis R_cached : forall a b, stable R (update a (set_cached b)).
Hypothesis R_dirty : forall a b, stable R (update a (set_dirty b)).
Hypothesis R_rid : forall a r, stable R (update a (set_rid r)).
Hypothesis R_pop : stable R pop_front.
Hypothesis R_push : forall a, stable R (push_back a).
Hypothesis R_hits : stable R (count incr_cache_hits).
Hypothesis R_writebacks : stable R (count incr_writebacks).

Lemma frame_writeback : stable R (writeback env).
Proof. unfold writeback. frame. Qed.

Lemma frame_cacheRegion (addr : Z) : stable R (cacheRegion env addr).
Proof. unfold cacheRegion. pose proof frame_writeback. frame. Qed.

Lemma frame_handler_fill (region flags : Z) :
  stable R (handler_fill env region flags).
Proof. unfold handler_fill. pose proof frame_cacheRegion. frame. Qed.

Lemma frame_handler (sig va : Z) (ctx : ucontext_t) :
  stable R (handler env sig va ctx).
Proof.
  unfold handler. pose proof frame_handler_fill.
  apply (stable_bind R R_trans); [apply (stable_allocated R R_refl) | intros it].
  destruct it; frame.
Qed.

(** *** [fsfree] *)

Hypothesis R_erase : forall a, stable R (erase a).
Hypothesis R_frees : stable R (count incr_frees).

Lemma frame_fsfree (addr : Z) : stable R (fsfree env addr).
Proof.
  unfold fsfree.
  apply (stable_bind R R_trans); [apply (stable_allocated R R_refl) | intros it].
  apply (stable_bind R R_trans); [| intros _; exact R_frees].
  destruct it; frame.
Qed.

End Frames.

Lemma same_accounting_refl (s : State) : same_accounting s s.
Proof. repeat split. Qed.

Lemma same_accounting_trans (s1 s2 s3 : State) :
  same_accounting s1 s2 -> same_accounting s2 s3 -> same_accounting s1 s3.
Proof. intros (H1 & H2 & H3) (H4 & H5 & H6). repeat split; congruence. Qed.

Lemma keeps_entries_refl (s : State) : keeps_entries s s.
Proof. intros a i H. exists i. split; [exact H | reflexivity]. Qed.

Lemma keeps_entries_trans (s1 s2 s3 : State) :
  keeps_entries s1 s2 -> keeps_entries s2 s3 -> keeps_entries s1 s3.
Proof.
  intros H12 H23 a i H. destruct (H12 a i H) as (i2 & H2 & E2).
  destruct (H23 a i2 H2) as (i3 & H3 & E3).
  exists i3. split; [exact H3 | congruence].
Qed.

(** an update that keeps the size keeps the entries *)
Lemma keeps_entries_update (a : Z) (f : Info -> Info) :
  (forall i, size (f i) = size i) -> stable keeps_entries (update a f).
Proof.
  intros Hf s b i H. cbn. rewrite lookup_alter.
  destruct (decide (a = b)) as [-> | Hne].
  - rewrite H. cbn. exists (f i). split; [reflexivity | apply Hf].
  - exists i. split; [exact H | reflexivity].
Qed.

Lemma keeps_entries_index (a : Z) : stable keeps_entries (index a).
Proof.
  intros s b i H. cbn.
  destruct (gAllocations s !! a) eqn:E.
  - exists i. split; [exact H | reflexivity].
  - cbn. exists i. split; [| reflexivity].
    rewrite lookup_insert_ne; [exact H | congruence].
Qed.

(** X13: whatever the environment answers and however they end, the fault
    handler and [writeback] never change [allocs], [frees] or the
    capacity. *)
Theorem paging_keeps_accounting (env : Env) (s : State) (sig va : Z)
  (ctx : ucontext_t) :
  same_accounting s (snd (handler env sig va ctx s)) /\
  same_accounting s (snd (writeback env s)).
Proof.
  split;
    [apply (frame_handler env same_accounting same_accounting_refl same_accounting_trans)
    |apply (frame_writeback env same_accounting same_accounting_refl same_accounting_trans)];
    intros; try intros ?; repeat split; try reflexivity;
    cbn; destruct (gAllocations _ !! _); reflexivity.
Qed.

(** X14: whatever the environment answers and however they end, the fault
    handler and [writeback] never remove an entry from the table and never
    change the size of one: only [fsfree] ends a region. *)
Theorem paging_keeps_entries (env : Env) (s : State) (sig va : Z)
  (ctx : ucontext_t) :
  keeps_entries s (snd (handler env sig va ctx s)) /\
  keeps_entries s (snd (writeback env s)).
Proof.
  split;
    [apply (frame_handler env keeps_entries keeps_entries_refl keeps_entries_trans)
    |apply (frame_writeback env keeps_entries keeps_entries_refl keeps_entries_trans)];
    intros;
    solve [apply keeps_entries_index
          | apply keeps_entries_update; reflexivity
          | intros a' i' H'; exists i'; split; [exact H' | reflexivity]
          | intros s' a' i' H'; exists i'; split; [exact H' | reflexivity] ].
Qed.

(** X15: whatever the environment answers and however it ends, [fsfree]
    changes neither the queue nor the capacity nor [allocs], [cache_hits],
    [writebacks]: a region that is queued when it is freed stays in the
    queue and goes on taking a place of the capacity. *)
Theorem fsfree_leaves_queue (env : Env) (s : State) (addr : Z) :
  free_frame s (snd (fsfree env addr s)).
Proof.
  assert (Hrefl : forall s, free_frame s s) by (intros; repeat split).
  assert (Htrans : forall s1 s2 s3,
             free_frame s1 s2 -> free_frame s2 s3 -> free_frame s1 s3).
  { intros s1 s2 s3 (H1 & H2 & H3 & H4 & H5) (H6 & H7 & H8 & H9 & H10).
    repeat split; congruence. }
  apply (frame_fsfree env free_frame Hrefl Htrans);
    intros; try intros ?; repeat split.
Qed.

(** X16: whatever the environment answers, an admission appends the
    address to the queue and, only if that makes the queue longer than the
    capacity, drops one address, the oldest: never more than one, never
    another. *)
Theorem cacheRegion_fifo (env : Env) (addr : Z) (s : State) :
  gRegionCache (snd (cacheRegion env addr s))
  = (if Z.of_nat (length (gRegionCache s ++ [addr])) >? gRegionCacheCapacity s
     then tail (gRegionCache s ++ [addr]) else gRegionCache s ++ [addr]) /\
  gRegionCacheCapacity (snd (cacheRegion env addr s)) = gRegionCacheCapacity s.
Proof. exact (cacheRegion_queue env addr s). Qed.

(** X17: on an empty queue [writeback] stops at its assertion and leaves
    the state as it is; otherwise it removes the head of the queue before
    it makes any call, so the head is gone also when a call fails and
    [writeback] throws. *)
Theorem writeback_takes_head (env : Env) (s : State) :
  (gRegionCache s = [] -> writeback env s = (Abort, s)) /\
  gRegionCache (snd (writeback env s)) = tail (gRegionCache s) /\
  gRegionCacheCapacity (snd (writeback env s)) = gRegionCacheCapacity s.
Proof.
  split; [| exact (writeback_pops env s)].
  intros Hq. unfold writeback.
  rewrite (bind_ret_eq get_state _ s s s eq_refl). rewrite Hq.
  cbn [length hd].
  exact (bind_abort_eq (assert (0 <? Z.of_nat 0)) _ s s eq_refl).
Qed.

Lemma writeback_takes_head_witness :
  writeback env0 (fresh 4) = (Abort, fresh 4).
Proof.
  apply (proj1 (writeback_takes_head env0 (fresh 4))). reflexivity.
Defined.

(** ** One record per region *)

(** X18: a dirty region without a key, alone in the queue, is evicted,
    written again and evicted again.  The first write-back appends a record
    and keeps its key; the write fault loads from that key; the second
    write-back overwrites the record of the same key through a cursor and
    appends nothing: the region has one record in the store.  [writebacks]
    has grown by two. *)
Theorem evict_write_evict (env : Env) (s : State) (sig va a : Z)
  (ctx : ucontext_t) (info : Info)
  (Hrel : reliable env)
  (HP : is_pagesize (kPagesize env))
  (Hq : gRegionCache s = [a])
  (Hin : gAllocations s !! a = Some info)
  (Hdirty : dirty info = true)
  (Hnokey : valid info = false)
  (Hva : 0 <= va < 2 ^ 64)
  (Hpage : pagealign (kPagesize env) va = a)
  (Hreg : va - a <= size info)
  (Hw : Z.testbit (nth REG_ERR (gregs (uc_mcontext ctx)) 0) 1 = true)
  (Hroom : 1 <= gRegionCacheCapacity s)
  (Hkey : valid (set_rid
                   (append_rid env
                      (trace s ++
                       [(Mprotect a (sizealign (kPagesize env) (size info))
                           PROT_READ, 0)])) info) = true) :
  let len := sizealign (kPagesize env) (size info) in
  let discard := [(Madvise a len MADV_DONTNEED, 0); (Mprotect a len PROT_NONE, 0)] in
  let stored :=
    [(Mprotect a len PROT_READ, 0); (DbPutAppend a (size info), 0)] ++ discard in
  let key := append_rid env (trace s ++ [(Mprotect a len PROT_READ, 0)]) in
  let data :=
    get_data env
      (trace s ++ stored ++ [(Mprotect a len (Z.lor PROT_READ PROT_WRITE), 0)]) in
  (writeback env;; handler env sig va ctx;; writeback env) s =
  (Ret tt,
   {| gAllocations :=
        <[a := {| rid := key; size := size info; dirty := false; cached := false |}]>
          (gAllocations s);
      gRegionCache := [];
      gRegionCacheCapacity := gRegionCacheCapacity s;
      gStats := incr_writebacks (incr_writebacks (gStats s));
      trace := trace s ++ stored ++
        [(Mprotect a len (Z.lor PROT_READ PROT_WRITE), 0);
         (DbGet key, 0);
         (Memcpy a data (size info), 0);
         (Mprotect a len (Z.lor PROT_READ PROT_WRITE), 0)] ++
        [(Mprotect a len PROT_READ, 0); (DbCursor, 0); (DbcGet key, 0);
         (DbcPut a (size info), 0); (DbcClose, 0)] ++ discard |}).
Proof.
  intros len discard stored key data.
  set (info1 := {| rid := key; size := size info; dirty := false; cached := false |}).
  pose proof (writeback_head_present env s a [] info Hrel Hq Hin) as Hw1.
  cbv zeta in Hw1. rewrite Hdirty, Hnokey in Hw1. cbn [negb] in Hw1.
  rewrite (bind_ret_eq _ _ _ _ _ Hw1).
  match goal with |- bind (handler _ _ _ _) _ ?s1 = _ =>
    pose proof (handler_write_miss_eq env s1 sig va ctx info1 Hrel HP Hva) as Hh
  end.
  rewrite Hpage in Hh. cbn [gAllocations gRegionCache gRegionCacheCapacity size] in Hh.
  specialize (Hh (lookup_insert_eq _ _ _) Hreg eq_refl Hw ltac:(cbn; lia)).
  cbv zeta in Hh. rewrite (bind_ret_eq _ _ _ _ _ Hh).
  unfold load_calls.
  change (valid info1) with (valid (set_rid key info)). unfold key at 1, len.
  rewrite Hkey.
  match goal with |- writeback env ?s2 = _ =>
    pose proof (writeback_head_present env s2 a []
                  {| rid := key; size := size info; dirty := true; cached := true |}
                  Hrel eq_refl) as Hw2
  end.
  cbn [gAllocations] in Hw2. specialize (Hw2 (lookup_insert_eq _ _ _)).
  cbv zeta in Hw2. cbn [dirty negb] in Hw2.
  change (valid {| rid := key; size := size info; dirty := true; cached := true |})
    with (valid (set_rid key info)) in Hw2.
  unfold key at 1, len in Hw2. rewrite Hkey in Hw2.
  rewrite Hw2. cbn. rewrite !insert_insert_eq.
  repeat rewrite <- app_assoc. reflexivity.
Qed.

Lemma evict_write_evict_witness :
  exists s',
    (writeback env0;; handler env0 SIGSEGV 65537 (ctx_err 7);; writeback env0)
      st_dirty = (Ret tt, s') /\
    writebacks (gStats s') = 2 /\
    map fst (trace s') =
      [Mprotect 65536 4096 PROT_READ; DbPutAppend 65536 4;
       Madvise 65536 4096 MADV_DONTNEED; Mprotect 65536 4096 PROT_NONE;
       Mprotect 65536 4096 (Z.lor PROT_READ PROT_WRITE);
       DbGet {| pgno := 2; indx := 0 |}; Memcpy 65536 4096 4;
       Mprotect 65536 4096 (Z.lor PROT_READ PROT_WRITE);
       Mprotect 65536 4096 PROT_READ; DbCursor;
       DbcGet {| pgno := 2; indx := 0 |}; DbcPut 65536 4; DbcClose;
       Madvise 65536 4096 MADV_DONTNEED; Mprotect 65536 4096 PROT_NONE].
Proof.
  eexists. split.
  - apply (evict_write_evict env0 st_dirty SIGSEGV 65537 65536 (ctx_err 7)
             info_dirty env0_reliable env0_pagesize);
      solve [reflexivity | vm_compute; split; [discriminate | reflexivity]
            | vm_compute; discriminate].
  - split; reflexivity.
Defined.

(** ** [init] *)

(** X19: [init] records the capacity modulo [2^32] and zeroes the
    statistics, after installing the handler and before creating the
    database; it does not touch the table or the queue.  So a second [init]
    forgets no region and empties no queue, and one with a smaller capacity
    can leave the queue longer than the capacity. *)
Theorem init_keeps_regions (env : Env) (path : string) (capacity : Z)
  (s : State)
  (Hrel : reliable env) :
  init env path capacity s =
  (Ret tt,
   {| gAllocations := gAllocations s;
      gRegionCache := gRegionCache s;
      gRegionCacheCapacity := capacity mod 2 ^ 32;
      gStats := {| allocs := 0; frees := 0; cache_hits := 0; writebacks := 0 |};
      trace := trace s ++
        [(Sigaction SIGSEGV SA_SIGINFO, 0); (DbCreate, 0);
         (DbSetPagesize (kPagesize env), 0);
         (DbSetCachesize 0 1024 1, 0);
         (DbOpen path, 0)] |}).
Proof.
  unfold init, db.init, bind.
  repeat (rewrite call_ok by (assumption || reflexivity); cbn).
  unfold set_trace. cbn. repeat rewrite <- app_assoc. reflexivity.
Qed.

Lemma init_keeps_regions_witness :
  init env0 "/tmp/fsalloc.bdb" 2 st_one =
  (Ret tt,
   {| gAllocations := gAllocations st_one;
      gRegionCache := [65536];
      gRegionCacheCapacity := 2;
      gStats := zeroStats;
      trace := trace st_one ++
        [(Sigaction SIGSEGV SA_SIGINFO, 0); (DbCreate, 0);
         (DbSetPagesize 4096, 0); (DbSetCachesize 0 1024 1, 0);
         (DbOpen "/tmp/fsalloc.bdb", 0)] |}).
Proof.
  apply (init_keeps_regions env0 "/tmp/fsalloc.bdb" 2 st_one env0_reliable).
Defined.

(** X20: when [sigaction] answers -1, [init] throws "fsalloc: sigaction
    failed" and has changed nothing: capacity and statistics are as before
    and the database is not touched.  When the handler is installed but the
    database cannot be created, [init] throws "Could not create database"
    with the capacity already set and the statistics already zeroed. *)
Theorem init_failures (env : Env) (path : string) (capacity : Z) (s : State) :
  let r := answer env (trace s) (Sigaction SIGSEGV SA_SIGINFO) in
  let e := answer env (trace s ++ [(Sigaction SIGSEGV SA_SIGINFO, r)]) DbCreate in
  (r = -1 ->
   init env path capacity s =
   (Throw "fsalloc: sigaction failed",
    set_trace (trace s ++ [(Sigaction SIGSEGV SA_SIGINFO, -1)]) s)) /\
  (r <> -1 -> e <> 0 ->
   init env path capacity s =
   (Throw "Could not create database",
    {| gAllocations := gAllocations s;
       gRegionCache := gRegionCache s;
       gRegionCacheCapacity := capacity mod 2 ^ 32;
       gStats := zeroStats;
       trace := trace s ++ [(Sigaction SIGSEGV SA_SIGINFO, r); (DbCreate, e)] |})).
Proof.
  intros r e. split.
  - intros Hr. unfold init, bind, call. fold r. rewrite Hr. reflexivity.
  - intros Hr He. unfold init, db.init, bind, call. fold r.
    replace (r =? -1) with false by (symmetry; apply Z.eqb_neq; exact Hr).
    cbn. fold e.
    replace (e =? 0) with false by (symmetry; apply Z.eqb_neq; exact He).
    cbn. rewrite <- app_assoc. reflexivity.
Qed.

Lemma init_failures_witness :
  init env_nosig "/tmp/fsalloc.bdb" 2 st_one =
  (Throw "fsalloc: sigaction failed",
   set_trace (trace st_one ++ [(Sigaction SIGSEGV SA_SIGINFO, -1)]) st_one).
Proof.
  apply (proj1 (init_failures env_nosig "/tmp/fsalloc.bdb" 2 st_one)).
  reflexivity.
Defined.

(** X21: from the start of the process, after [init] with any capacity and
    then any sequence of allocate, free, fault and write-back operations,
    the queue is never longer than the capacity, whatever the environment
    answers and also when [init] or an operation has thrown. *)
Theorem bounded_after_init (env : Env) (path : string) (capacity : Z)
  (ops : list Op) :
  within_capacity (run env ops (snd (init env path capacity boot))).
Proof. exact (queue_within_capacity_from_init env path capacity ops). Qed.

(** ** Failures come from the environment only *)

Lemma handler_fill_returns (env : Env) (s : State) (region flags : Z)
  (Hrel : reliable env) :
  exists s', handler_fill env region flags s = (Ret tt, s').
Proof.
  unfold handler_fill.
  erewrite (bind_ret_eq (deref region)) by reflexivity.
  set (info := default zeroInfo (gAllocations s !! region)).
  assert (Hload : exists s1,
    when (valid info)
      (protect env region (size info) (Z.lor PROT_READ PROT_WRITE);;
       tmp <- db.get env (rid info);
       call env (Memcpy region tmp (size info));; ret tt) s = (Ret tt, s1)).
  { destruct (valid info); cbn [when]; [| eexists; reflexivity].
    rewrite (bind_ret_eq _ _ _ _ _ (protect_ok env Hrel _ _ _ _)).
    rewrite (bind_ret_eq _ _ _ _ _ (db_get_ok env Hrel _ _)).
    rewrite (bind_ret_eq _ _ _ _ _ (call_ok env Hrel (Memcpy _ _ _) _ eq_refl)).
    eexists. reflexivity. }
  destruct Hload as [s1 Hload]. rewrite (bind_ret_eq _ _ _ _ _ Hload).
  erewrite (bind_ret_eq (update region (set_cached true))) by reflexivity.
  match goal with |- context [bind (cacheRegion env region) _ ?st] =>
    destruct (cacheRegion_ok env st region Hrel) as [s2 [Hc _]]
  end.
  rewrite (bind_ret_eq _ _ _ _ _ Hc), protect_ok by assumption.
  eexists. reflexivity.
Qed.

Lemma handler_returns (env : Env) (s : State) (sig va : Z) (ctx : ucontext_t)
  (Hrel : reliable env)
  (Hprev : forall tr, prev_returns env tr sig = true) :
  exists s', handler env sig va ctx s = (Ret tt, s').
Proof.
  assert (Hchain : forall st, exists st', default_sigsegv env sig st = (Ret tt, st')).
  { intros st. unfold default_sigsegv.
    erewrite (bind_ret_eq get_state) by reflexivity. rewrite Hprev.
    rewrite (bind_ret_eq _ _ _ _ _ (call_ok env Hrel (PrevHandler sig) _ eq_refl)).
    eexists. reflexivity. }
  unfold handler.
  erewrite (bind_ret_eq (allocated _)) by reflexivity.
  destruct (gAllocations s !! pagealign (kPagesize env) va) as [info |];
    [| apply Hchain].
  assert (Hv : exists s1,
    when (negb (verify (pagealign (kPagesize env) va) va (size info)))
      (default_sigsegv env sig) s = (Ret tt, s1)).
  { destruct (negb _); cbn [when]; [apply Hchain | eexists; reflexivity]. }
  destruct Hv as [s1 Hv]. rewrite (bind_ret_eq _ _ _ _ _ Hv).
  destruct (negb (Z.land (get_mprotect_flags ctx) PROT_WRITE =? 0));
    [| apply handler_fill_returns; exact Hrel].
  erewrite (bind_ret_eq (update _ _)) by reflexivity.
  destruct (cached info); [| apply handler_fill_returns; exact Hrel].
  rewrite protect_ok by assumption. eexists. reflexivity.
Qed.

(** X22: in a reliable environment whose previous handler returns, no
    operation throws or aborts of its own accord: a fault and a free always
    return, an allocation returns when its [mmap] succeeds, and a
    write-back returns when the queue is not empty. *)
Theorem reliable_operations_return (env : Env) (s : State) (op : Op)
  (Hrel : reliable env)
  (Hprev : forall tr sig, prev_returns env tr sig = true) :
  match op with
  | Allocate size =>
      answer env (trace s)
        (Mmap (to_uint32 size) PROT_NONE (Z.lor MAP_ANONYMOUS MAP_PRIVATE))
      <> MAP_FAILED ->
      fst (exec env op s) = Ret tt
  | Writeback => gRegionCache s <> [] -> fst (exec env op s) = Ret tt
  | _ => fst (exec env op s) = Ret tt
  end.
Proof.
  destruct op as [size | addr | sig va ctx |]; cbn [exec].
  - intros Hok.
    assert (Hr : 0 <= to_uint32 size < 2 ^ 32)
      by (unfold to_uint32; apply Z.mod_pos_bound; lia).
    destruct (fsalloc_ok env s (to_uint32 size) _ Hrel Hr eq_refl Hok) as [s2 [Hf _]].
    assert (Hf' : fsalloc env size s = fsalloc env (to_uint32 size) s).
    { unfold fsalloc. rewrite (to_uint32_small (to_uint32 size) Hr). reflexivity. }
    rewrite (bind_ret_eq _ _ _ _ _ (eq_trans Hf' Hf)). reflexivity.
  - destruct (gAllocations s !! addr) as [info |] eqn:Hin.
    + rewrite (fsfree_known_eq env s addr info Hin). cbv zeta.
      rewrite (Hrel _ (DbDel _) eq_refl). cbn.
      rewrite (Hrel _ (Munmap _ _) eq_refl). reflexivity.
    + unfold fsfree, bind, allocated, get_state, ret, count, modify. cbn.
      rewrite Hin. reflexivity.
  - destruct (handler_returns env s sig va ctx Hrel (fun tr => Hprev tr sig))
      as [s' ->]. reflexivity.
  - intros Hne. destruct (gRegionCache s) as [| a q] eqn:Hq; [congruence |].
    destruct (writeback_ok env s a q Hrel Hq) as [s' [-> _]]. reflexivity.
Qed.

Lemma reliable_operations_return_witness :
  fst (exec env0 (Fault SIGSEGV 65540 (ctx_err 4)) st_full) = Ret tt.
Proof.
  apply (reliable_operations_return env0 st_full (Fault SIGSEGV 65540 (ctx_err 4))
           env0_reliable).
  reflexivity.
Defined.

(** X23: when the store cannot read the record of a region that a read
    fault is bringing in, the handler throws "Getting from database failed".
    By then the region has been made readable and writable; it is not
    marked cached, not queued, and nothing was copied into it. *)
Theorem handler_get_failure (env : Env) (s : State) (sig va e : Z)
  (ctx : ucontext_t) (info : Info)
  (HP : is_pagesize (kPagesize env))
  (Hva : 0 <= va < 2 ^ 64)
  (Hin : gAllocations s !! pagealign (kPagesize env) va = Some info)
  (Hreg : va - pagealign (kPagesize env) va <= size info)
  (Hr : Z.testbit (nth REG_ERR (gregs (uc_mcontext ctx)) 0) 1 = false)
  (Hkey : valid info = true)
  (Hprot : answer env (trace s)
             (Mprotect (pagealign (kPagesize env) va)
                (sizealign (kPagesize env) (size info))
                (Z.lor PROT_READ PROT_WRITE)) = 0)
  (Hget : answer env
            (trace s ++
             [(Mprotect (pagealign (kPagesize env) va)
                 (sizealign (kPagesize env) (size info))
                 (Z.lor PROT_READ PROT_WRITE), 0)])
            (DbGet (rid info)) = e)
  (He : e <> 0) :
  handler env sig va ctx s =
  (Throw "Getting from database failed",
   {| gAllocations := gAllocations s;
      gRegionCache := gRegionCache s;
      gRegionCacheCapacity := gRegionCacheCapacity s;
      gStats := gStats s;
      trace := trace s ++
        [(Mprotect (pagealign (kPagesize env) va)
            (sizealign (kPagesize env) (size info))
            (Z.lor PROT_READ PROT_WRITE), 0);
         (DbGet (rid info), e)] |}).
Proof.
  destruct (pagealign_bounds _ _ HP Hva) as [Hoff _].
  pose proof (is_pagesize_bounds _ HP) as Hb.
  assert (Hne : (e =? 0) = false) by (apply Z.eqb_neq; exact He).
  set (region := pagealign (kPagesize env) va) in *.
  destruct s as [tbl queue cap st tr]. cbn in Hin, Hprot, Hget.
  unfold handler. fold region.
  erewrite (bind_ret_eq (allocated region))
    by (unfold allocated, bind, get_state, ret; cbn; reflexivity).
  cbn [gAllocations]. rewrite Hin. rewrite verify_offset by lia.
  replace (va - region <=? size info) with true by (symmetry; apply Z.leb_le; lia).
  erewrite (bind_ret_eq (when (negb true) _)) by reflexivity.
  rewrite get_mprotect_flags_bit, Hr.
  change (negb (Z.land PROT_READ PROT_WRITE =? 0)) with false. cbv iota.
  unfold handler_fill, bind, deref, get_state, ret. cbn. rewrite Hin. cbn.
  rewrite Hkey. cbn.
  unfold protect, db.get, bind, call, get_state. cbn.
  rewrite Hprot. cbn. rewrite Hget, Hne. cbn.
  unfold set_trace. cbn. rewrite <- app_assoc. reflexivity.
Qed.

Lemma handler_get_failure_witness :
  handler env_noget SIGSEGV 65537 (ctx_err 4) st_evicted =
  (Throw "Getting from database failed",
   {| gAllocations := gAllocations st_evicted;
      gRegionCache := [];
      gRegionCacheCapacity := 4;
      gStats := gStats st_evicted;
      trace := [(Mprotect 65536 4096 (Z.lor PROT_READ PROT_WRITE), 0);
                (DbGet {| pgno := 2; indx := 0 |}, 5)] |}).
Proof.
  apply (handler_get_failure env_noget st_evicted SIGSEGV 65537 5 (ctx_err 4)
           {| rid := {| pgno := 2; indx := 0 |}; size := 4;
              dirty := false; cached := false |} env0_pagesize);
    solve [reflexivity | vm_compute; split; [discriminate | reflexivity]
          | vm_compute; discriminate | discriminate].
Defined.


(** ** [managed]: objects of the pool *)

(** X24: [operator delete] of a managed object never lets an exception out:
    where [fsfree] throws, the process is terminated.  So for an object whose
    record the store refuses to delete (any error but [DB_NOTFOUND]) the
    process ends after that one call, with the entry kept and the region
    still mapped. *)
Theorem managed_delete_terminates (env : Env) (s : State) (obj : Z) :
  (forall msg, fst (managed.operator_delete env obj s) <> Throw msg) /\
  (forall info e,
     gAllocations s !! obj = Some info ->
     answer env (trace s) (DbDel (rid info)) = e ->
     e <> 0 -> e <> DB_NOTFOUND ->
     managed.operator_delete env obj s =
     (Abort, set_trace (trace s ++ [(DbDel (rid info), e)]) s)).
Proof.
  unfold managed.operator_delete, noexcept. split.
  - intros msg. destruct (fsfree env obj s) as [[[] | m |] s']; cbn; discriminate.
  - intros info e Hin He H0 Hnf.
    rewrite (fsfree_known_eq env s obj info Hin). cbv zeta. rewrite He.
    replace (e =? 0) with false by (symmetry; apply Z.eqb_neq; exact H0).
    replace (e =? DB_NOTFOUND) with false by (symmetry; apply Z.eqb_neq; exact Hnf).
    reflexivity.
Qed.

Lemma managed_delete_terminates_witness :
  managed.operator_delete env_nodel 65536 st_one =
  (Abort, set_trace (trace st_one ++ [(DbDel invalid_handle, 5)]) st_one).
Proof.
  apply (proj2 (managed_delete_terminates env_nodel st_one 65536)
           (emptyInfo 4) 5); [reflexivity | reflexivity | discriminate | discriminate].
Defined.
